(** * vue-version-watcher: a shallow embedding of [src/index.ts]

    The watcher is event-driven browser code: module-level variables, a few
    properties hung on [window], closures registered as listeners and timers,
    and [async] functions suspended on a [fetch].  The embedding keeps that
    shape:

    - the browser page is a record [World] (module variables, window,
      closure cells, timer queue, pending requests, console, effect log);
    - source functions are computations in a small state-and-exception
      monad [JS] and are written statement by statement after the source;
    - closures are defunctionalised ([Task], [Kont], [HistoryFn],
      listeners) and carry the variables they capture;
    - an [async] function is cut at its [await]: the part before it issues
      the request and parks a continuation, the part after it runs when the
      environment delivers the response ([FetchSettles]). *)

From stdpp Require Import base option list strings numbers.
From Stdlib Require Import Ascii String.

Local Open Scope string_scope.
Local Open Scope list_scope.

(** ** Values *)

(** JavaScript truthiness of a string: every string but the empty one. *)
Definition truthy (s : string) : bool := negb (String.eqb s "").

(** Truthiness of [string | null | undefined]. *)
Definition truthy_opt (o : option string) : bool :=
  match o with Some s => truthy s | None => false end.

(** [a || b] on [string | null]. *)
Definition js_or (a b : option string) : option string :=
  if truthy_opt a then a else b.

(** [a || ""] : the final default of an [||] chain. *)
Definition or_default (a : option string) (d : string) : string :=
  match a with Some s => if truthy s then s else d | None => d end.

(** [o !== s] for [o : string | null] and [s : string]. *)
Definition strict_neq (o : option string) (s : string) : bool :=
  match o with Some v => negb (String.eqb v s) | None => true end.

(** [url.startsWith(prefix)]. *)
Definition startsWith (url pre : string) : bool := String.prefix pre url.

(** ** Options *)

(** A user supplied [onUpdateDetected]; only its identity is observable. *)
Inductive UpdateCallback := UserCallback (id : nat).

(** A [RegExp] is used through [test] only (a pattern without the sticky or
    global flag, so that [test] is a function of the string). *)
Definition RegExp := string → bool.

Record VersionWatcherOptions := {
  enabled : option bool;
  checkInterval : option Z;
  checkPath : option string;
  silent : option bool;
  onUpdateDetected : option UpdateCallback;
  ignorePaths : option RegExp;
}.

(** [setupVersionWatcher()] called without argument. *)
Definition noOptions : VersionWatcherOptions :=
  {| enabled := None; checkInterval := None; checkPath := None;
     silent := None; onUpdateDetected := None; ignorePaths := None |}.

(** The variables of one [setupVersionWatcher] activation that its closures
    capture. *)
Record Env := {
  e_checkPath : string;
  e_silent : bool;
  e_onUpdateDetected : option UpdateCallback;
  e_ignorePaths : option RegExp;
}.

(** ** Network *)

Record Response := {
  status : nat;
  statusText : string;
  header_etag : option string;
  header_last_modified : option string;
}.

(** [res.ok] *)
Definition ok (res : Response) : bool :=
  (200 <=? status res)%nat && (status res <=? 299)%nat.

Inductive FetchResult :=
| FetchRejected (reason : string)
| FetchResolved (res : Response).

Inductive Error :=
| HttpError (code : nat) (text : string)
| TransportError (reason : string).

(** ** Console and effects *)

Inductive Message :=
| MsgDisabled
| MsgAlreadyRegistered
| MsgEnabled
| MsgIgnoreCurrentPath
| MsgIgnoreNavigation
| MsgAssetFailed (url : string)
| MsgDestroyed
| MsgGetETagFailed (e : Error)
| MsgVersionChanged (old : option string) (new : string)
| MsgCheckFailed (e : Error)
| MsgReloadCancelled.

Inductive LogEntry :=
| ConsoleLog (m : Message)
| ConsoleWarn (m : Message).

Inductive DialogKind := RichDialog | NativeConfirm.

Inductive Effect :=
| EFetch (id : nat) (url : string)
| ECallback (cb : UpdateCallback)
| EShowUpdateDialog (silent : bool)
| EDialog (kind : DialogKind)
| EElMessage
| EReload.

(** A notification is a call of [onUpdateDetected] or of the default flow
    [showUpdateDialog]. *)
Definition is_notification (e : Effect) : bool :=
  match e with
  | ECallback _ | EShowUpdateDialog _ => true
  | _ => false
  end.

Definition is_fetch (e : Effect) : bool :=
  match e with EFetch _ _ => true | _ => false end.

Definition is_dialog (e : Effect) : bool :=
  match e with EDialog _ => true | _ => false end.

(** ** Closures *)

(** What a timer runs. *)
Inductive Task :=
| TaskInterval (env : Env)
| TaskCheckError (cell : nat) (env : Env)
| TaskShowDialog (silent : bool).

(** An [async] function parked at [await getETag(...)]. *)
Inductive Kont :=
| KVersionUpdateHandler (env : Env)
| KCheckError (cell : nat) (env : Env).

(** The values [history.pushState] and [history.replaceState] take: the
    browser's own function, or the wrapper built by [hookHistoryChange]. *)
Inductive HistoryFn :=
| NativeHistoryFn
| HookedHistoryFn (original : HistoryFn) (env : Env).

Inductive PopstateListener := OnPopstate (env : Env).

(** The function [debounce(fn, delay)] returns: [d_timer] is the cell of its
    own [timer] variable. *)
Record Debounced := {
  d_timer : nat;
  d_fn : Task;
  d_delay : nat;
}.

(** The [error] listener of one [setupErrorMonitoring] activation: [cell] is
    its [errorCount], [checkError] its debounced evaluator. *)
Inductive ErrorListener := OnError (cell : nat) (checkError : Debounced) (env : Env).

Record Timer := {
  handle : positive;
  due : nat;
  period : option nat;
  task : Task;
}.

(** [event.target] of an [error] event. *)
Record Target := {
  tagName : string;
  src : option string;
  href : option string;
}.

(** ** The page *)

(** Module-level variables of [index.ts]: the Watcher State. *)
Record Watcher := {
  sysVersion : option string;
  checkTimer : option positive;
  isInitialized : bool;
}.

Record Window := {
  origin : string;
  pathname : string;
  ORIGINAL_PUSH_STATE : option HistoryFn;
  ORIGINAL_REPLACE_STATE : option HistoryFn;
  pushState : HistoryFn;
  replaceState : HistoryFn;
  popstateListeners : list PopstateListener;
  errorListeners : list ErrorListener;
  ElMessageBox : bool;
  ElMessage : bool;
}.

(** Variables that live in closures: one [errorCount] per
    [setupErrorMonitoring] activation, one [timer] per [debounce]
    activation. *)
Record Cells := {
  errorCount : list nat;
  debounceTimer : list (option positive);
}.

(** The browser's side: clock, timers, requests in flight, the user. Timer
    handles are positive integers, as the HTML standard has them. *)
Record Loop := {
  now : nat;
  nextHandle : positive;
  timers : list Timer;
  nextFetch : nat;
  pending : list (nat * Kont);
  confirmAnswers : list bool;
  openDialogs : nat;
  reloaded : bool;
}.

Record World := {
  watcher : Watcher;
  window : Window;
  cells : Cells;
  loop : Loop;
  console : list LogEntry;
  effects : list Effect;
}.

(** *** Field updates *)

Definition with_watcher (f : Watcher → Watcher) (w : World) : World :=
  {| watcher := f (watcher w); window := window w; cells := cells w;
     loop := loop w; console := console w; effects := effects w |}.
Definition with_window (f : Window → Window) (w : World) : World :=
  {| watcher := watcher w; window := f (window w); cells := cells w;
     loop := loop w; console := console w; effects := effects w |}.
Definition with_cells (f : Cells → Cells) (w : World) : World :=
  {| watcher := watcher w; window := window w; cells := f (cells w);
     loop := loop w; console := console w; effects := effects w |}.
Definition with_loop (f : Loop → Loop) (w : World) : World :=
  {| watcher := watcher w; window := window w; cells := cells w;
     loop := f (loop w); console := console w; effects := effects w |}.
Definition with_console (f : list LogEntry → list LogEntry) (w : World) : World :=
  {| watcher := watcher w; window := window w; cells := cells w;
     loop := loop w; console := f (console w); effects := effects w |}.
Definition with_effects (f : list Effect → list Effect) (w : World) : World :=
  {| watcher := watcher w; window := window w; cells := cells w;
     loop := loop w; console := console w; effects := f (effects w) |}.

Definition set_sysVersion (v : option string) (s : Watcher) : Watcher :=
  {| sysVersion := v; checkTimer := checkTimer s; isInitialized := isInitialized s |}.
Definition set_checkTimer (v : option positive) (s : Watcher) : Watcher :=
  {| sysVersion := sysVersion s; checkTimer := v; isInitialized := isInitialized s |}.
Definition set_isInitialized (v : bool) (s : Watcher) : Watcher :=
  {| sysVersion := sysVersion s; checkTimer := checkTimer s; isInitialized := v |}.

Definition set_pathname (v : string) (d : Window) : Window :=
  {| origin := origin d; pathname := v;
     ORIGINAL_PUSH_STATE := ORIGINAL_PUSH_STATE d;
     ORIGINAL_REPLACE_STATE := ORIGINAL_REPLACE_STATE d;
     pushState := pushState d; replaceState := replaceState d;
     popstateListeners := popstateListeners d; errorListeners := errorListeners d;
     ElMessageBox := ElMessageBox d; ElMessage := ElMessage d |}.
Definition set_ORIGINAL_PUSH_STATE (v : option HistoryFn) (d : Window) : Window :=
  {| origin := origin d; pathname := pathname d;
     ORIGINAL_PUSH_STATE := v;
     ORIGINAL_REPLACE_STATE := ORIGINAL_REPLACE_STATE d;
     pushState := pushState d; replaceState := replaceState d;
     popstateListeners := popstateListeners d; errorListeners := errorListeners d;
     ElMessageBox := ElMessageBox d; ElMessage := ElMessage d |}.
Definition set_ORIGINAL_REPLACE_STATE (v : option HistoryFn) (d : Window) : Window :=
  {| origin := origin d; pathname := pathname d;
     ORIGINAL_PUSH_STATE := ORIGINAL_PUSH_STATE d;
     ORIGINAL_REPLACE_STATE := v;
     pushState := pushState d; replaceState := replaceState d;
     popstateListeners := popstateListeners d; errorListeners := errorListeners d;
     ElMessageBox := ElMessageBox d; ElMessage := ElMessage d |}.
Definition set_pushState (v : HistoryFn) (d : Window) : Window :=
  {| origin := origin d; pathname := pathname d;
     ORIGINAL_PUSH_STATE := ORIGINAL_PUSH_STATE d;
     ORIGINAL_REPLACE_STATE := ORIGINAL_REPLACE_STATE d;
     pushState := v; replaceState := replaceState d;
     popstateListeners := popstateListeners d; errorListeners := errorListeners d;
     ElMessageBox := ElMessageBox d; ElMessage := ElMessage d |}.
Definition set_replaceState (v : HistoryFn) (d : Window) : Window :=
  {| origin := origin d; pathname := pathname d;
     ORIGINAL_PUSH_STATE := ORIGINAL_PUSH_STATE d;
     ORIGINAL_REPLACE_STATE := ORIGINAL_REPLACE_STATE d;
     pushState := pushState d; replaceState := v;
     popstateListeners := popstateListeners d; errorListeners := errorListeners d;
     ElMessageBox := ElMessageBox d; ElMessage := ElMessage d |}.
Definition set_popstateListeners (v : list PopstateListener) (d : Window) : Window :=
  {| origin := origin d; pathname := pathname d;
     ORIGINAL_PUSH_STATE := ORIGINAL_PUSH_STATE d;
     ORIGINAL_REPLACE_STATE := ORIGINAL_REPLACE_STATE d;
     pushState := pushState d; replaceState := replaceState d;
     popstateListeners := v; errorListeners := errorListeners d;
     ElMessageBox := ElMessageBox d; ElMessage := ElMessage d |}.
Definition set_errorListeners (v : list ErrorListener) (d : Window) : Window :=
  {| origin := origin d; pathname := pathname d;
     ORIGINAL_PUSH_STATE := ORIGINAL_PUSH_STATE d;
     ORIGINAL_REPLACE_STATE := ORIGINAL_REPLACE_STATE d;
     pushState := pushState d; replaceState := replaceState d;
     popstateListeners := popstateListeners d; errorListeners := v;
     ElMessageBox := ElMessageBox d; ElMessage := ElMessage d |}.

Definition set_errorCount (v : list nat) (c : Cells) : Cells :=
  {| errorCount := v; debounceTimer := debounceTimer c |}.
Definition set_debounceTimer (v : list (option positive)) (c : Cells) : Cells :=
  {| errorCount := errorCount c; debounceTimer := v |}.

Definition set_now (v : nat) (l : Loop) : Loop :=
  {| now := v; nextHandle := nextHandle l; timers := timers l;
     nextFetch := nextFetch l; pending := pending l;
     confirmAnswers := confirmAnswers l; openDialogs := openDialogs l;
     reloaded := reloaded l |}.
Definition set_nextHandle (v : positive) (l : Loop) : Loop :=
  {| now := now l; nextHandle := v; timers := timers l;
     nextFetch := nextFetch l; pending := pending l;
     confirmAnswers := confirmAnswers l; openDialogs := openDialogs l;
     reloaded := reloaded l |}.
Definition set_timers (v : list Timer) (l : Loop) : Loop :=
  {| now := now l; nextHandle := nextHandle l; timers := v;
     nextFetch := nextFetch l; pending := pending l;
     confirmAnswers := confirmAnswers l; openDialogs := openDialogs l;
     reloaded := reloaded l |}.
Definition set_nextFetch (v : nat) (l : Loop) : Loop :=
  {| now := now l; nextHandle := nextHandle l; timers := timers l;
     nextFetch := v; pending := pending l;
     confirmAnswers := confirmAnswers l; openDialogs := openDialogs l;
     reloaded := reloaded l |}.
Definition set_pending (v : list (nat * Kont)) (l : Loop) : Loop :=
  {| now := now l; nextHandle := nextHandle l; timers := timers l;
     nextFetch := nextFetch l; pending := v;
     confirmAnswers := confirmAnswers l; openDialogs := openDialogs l;
     reloaded := reloaded l |}.
Definition set_confirmAnswers (v : list bool) (l : Loop) : Loop :=
  {| now := now l; nextHandle := nextHandle l; timers := timers l;
     nextFetch := nextFetch l; pending := pending l;
     confirmAnswers := v; openDialogs := openDialogs l;
     reloaded := reloaded l |}.
Definition set_openDialogs (v : nat) (l : Loop) : Loop :=
  {| now := now l; nextHandle := nextHandle l; timers := timers l;
     nextFetch := nextFetch l; pending := pending l;
     confirmAnswers := confirmAnswers l; openDialogs := v;
     reloaded := reloaded l |}.
Definition set_reloaded (v : bool) (l : Loop) : Loop :=
  {| now := now l; nextHandle := nextHandle l; timers := timers l;
     nextFetch := nextFetch l; pending := pending l;
     confirmAnswers := confirmAnswers l; openDialogs := openDialogs l;
     reloaded := v |}.

(** ** The monad of JavaScript computations *)

Inductive Completion (A : Type) :=
| Normal (a : A)
| Abrupt (e : Error).
Arguments Normal {A} a.
Arguments Abrupt {A} e.

Definition JS (A : Type) : Type := World → Completion A * World.

#[global] Instance JS_ret : MRet JS := λ A a w, (Normal a, w).
#[global] Instance JS_bind : MBind JS := λ A B f m w,
  match m w with
  | (Normal a, w') => f a w'
  | (Abrupt e, w') => (Abrupt e, w')
  end.

Definition throw {A} (e : Error) : JS A := λ w, (Abrupt e, w).

(** [try { body } catch (error) { handler }] *)
Definition try_catch {A} (body : JS A) (handler : Error → JS A) : JS A := λ w,
  match body w with
  | (Normal a, w') => (Normal a, w')
  | (Abrupt e, w') => handler e w'
  end.

Definition gets {A} (f : World → A) : JS A := λ w, (Normal (f w), w).
Definition modify (f : World → World) : JS unit := λ w, (Normal tt, f w).
Definition skip : JS unit := mret tt.

(** Run a statement to its end; an uncaught exception of a task or of a
    promise reaction is reported by the browser and the page goes on. *)
Definition exec (m : JS unit) (w : World) : World := snd (m w).

Definition console_log (m : Message) : JS unit :=
  modify (with_console (λ c, c ++ [ConsoleLog m])).
Definition console_warn (m : Message) : JS unit :=
  modify (with_console (λ c, c ++ [ConsoleWarn m])).
Definition emit (e : Effect) : JS unit :=
  modify (with_effects (λ t, t ++ [e])).

(** [!silent && stmt] *)
Definition unless (silent : bool) (m : JS unit) : JS unit :=
  if silent then skip else m.

(** ** Browser primitives *)

Definition get_sysVersion : JS (option string) := gets (λ w, sysVersion (watcher w)).
Definition put_sysVersion (v : option string) : JS unit :=
  modify (with_watcher (set_sysVersion v)).

(** [window.setTimeout] and [window.setInterval] draw handles from one
    counter; [period] tells them apart.  A delay is a whole number of
    milliseconds and is kept exactly, which is what the browser does with
    delays below [2^31]; a larger one overflows the timer's 32-bit field
    there, and statements about periods assume [ms < 2^31]. *)
Definition setTimer (t : Task) (delay : nat) (rep : option nat) : JS positive := λ w,
  let h := nextHandle (loop w) in
  let entry := {| handle := h; due := now (loop w) + delay; period := rep; task := t |} in
  (Normal h,
   with_loop (λ l, set_timers (timers l ++ [entry]) (set_nextHandle (Pos.succ h) l)) w).

Definition setTimeout (t : Task) (delay : nat) : JS positive := setTimer t delay None.
Definition setInterval (t : Task) (delay : nat) : JS positive := setTimer t delay (Some delay).

Definition keep_other (h : positive) (t : Timer) : bool := negb (Pos.eqb (handle t) h).

(** [clearTimeout(h)] and [clearInterval(h)]; [undefined] clears nothing. *)
Definition clearTimer (o : option positive) : JS unit :=
  match o with
  | None => skip
  | Some h => modify (with_loop (λ l, set_timers (List.filter (keep_other h) (timers l)) l))
  end.

(** [fetch(url, { method: "HEAD", cache: "no-cache" })] followed by the
    [await]: the request leaves, the caller is parked as [k]. *)
Definition await_fetch (url : string) (k : Kont) : JS unit := λ w,
  let id := nextFetch (loop w) in
  (Normal tt,
   with_effects (λ t, t ++ [EFetch id url])
     (with_loop (λ l, set_pending (pending l ++ [(id, k)]) (set_nextFetch (S id) l)) w)).

(** [window.location.reload()] *)
Definition location_reload : JS unit :=
  emit EReload;; modify (with_loop (set_reloaded true)).

(** [confirm(...)]: blocks until the user answers. *)
Definition confirm : JS bool := λ w,
  match confirmAnswers (loop w) with
  | [] => (Normal false, w)
  | a :: rest => (Normal a, with_loop (set_confirmAnswers rest) w)
  end.

(** ** [debounce] *)

(** [function debounce(fn, delay = 300) { let timer; return (...args) => ... }] *)
Definition debounce (fn : Task) (delay : option nat) : JS Debounced := λ w,
  let c := List.length (debounceTimer (cells w)) in
  (Normal {| d_timer := c; d_fn := fn; d_delay := default 300 delay |},
   with_cells (λ cs, set_debounceTimer (debounceTimer cs ++ [None]) cs) w).

(** [(...args) => { clearTimeout(timer); timer = window.setTimeout(() => fn(...args), delay); }] *)
Definition call_debounced (d : Debounced) : JS unit :=
  timer ← gets (λ w, mjoin (debounceTimer (cells w) !! d_timer d));
  clearTimer timer;;
  h ← setTimeout (d_fn d) (d_delay d);
  modify (with_cells (λ cs, set_debounceTimer (<[d_timer d := Some h]> (debounceTimer cs)) cs)).

(** ** The watcher *)

(** [showUpdateDialog(silent)]: the debounced [showDialog] is built inside the
    function, then called once. *)
Definition showUpdateDialog (silent : bool) : JS unit :=
  emit (EShowUpdateDialog silent);;
  showDialog ← debounce (TaskShowDialog silent) (Some 500);
  call_debounced showDialog.

(** The function [showUpdateDialog] hands to [debounce]. *)
Definition showDialog_fn (silent : bool) : JS unit :=
  rich ← gets (λ w, ElMessageBox (window w));
  if rich : bool then
    emit (EDialog RichDialog);;
    modify (with_loop (λ l, set_openDialogs (S (openDialogs l)) l))
  else
    emit (EDialog NativeConfirm);;
    yes ← confirm;
    if yes : bool then location_reload
    else unless silent (console_log MsgReloadCancelled).

(** The reactions on [ElMessageBox.confirm(...)]:
    [.then(() => window.location.reload()).catch(() => ElMessage?.(...))] *)
Definition dialog_answered (accept : bool) : JS unit :=
  n ← gets (λ w, openDialogs (loop w));
  match n with
  | O => skip
  | S n' =>
      modify (with_loop (set_openDialogs n'));;
      if accept then location_reload
      else
        has ← gets (λ w, ElMessage (window w));
        if has : bool then emit EElMessage else skip
  end.

(** [getETag(url, silent)] from its [await fetch(...)] on; [fetch] stands for
    the request as it settled. *)
Definition getETag (fetch : string → FetchResult) (url : string) (silent : bool) : JS string :=
  try_catch
    (res ← match fetch url with
           | FetchRejected reason => throw (TransportError reason)
           | FetchResolved res => mret res
           end;
     if negb (ok res) then throw (HttpError (status res) (statusText res))
     else mret (or_default (js_or (header_etag res) (header_last_modified res)) ""))
    (λ error,
       unless silent (console_warn (MsgGetETagFailed error));;
       mret "").

(** [versionUpdateHandler(checkPath, silent, onUpdateDetected)] up to its
    [await]: nothing but the request. *)
Definition call_versionUpdateHandler (env : Env) : JS unit :=
  await_fetch (e_checkPath env) (KVersionUpdateHandler env).

(** [versionUpdateHandler] from the [await] on. *)
Definition versionUpdateHandler (fetch : string → FetchResult)
    (checkPath : string) (silent : bool) (onUpdateDetected : option UpdateCallback) : JS unit :=
  try_catch
    (newVersion ← getETag fetch checkPath silent;
     sv ← get_sysVersion;
     if negb (truthy_opt sv) then
       put_sysVersion (Some newVersion)
     else if strict_neq sv newVersion then
       unless silent (console_log (MsgVersionChanged sv newVersion));;
       match onUpdateDetected with
       | Some cb => emit (ECallback cb)
       | None => showUpdateDialog silent
       end
     else skip)
    (λ error, unless silent (console_warn (MsgCheckFailed error))).

Definition get_errorCount (cell : nat) : JS nat :=
  gets (λ w, default 0 (errorCount (cells w) !! cell)).
Definition put_errorCount (cell : nat) (n : nat) : JS unit :=
  modify (with_cells (λ cs, set_errorCount (<[cell := n]> (errorCount cs)) cs)).

(** The [async] function [setupErrorMonitoring] hands to [debounce], up to
    its [await]. *)
Definition checkError_fn (cell : nat) (env : Env) : JS unit :=
  n ← get_errorCount cell;
  if (1 <? n)%nat then await_fetch (e_checkPath env) (KCheckError cell env)
  else put_errorCount cell 0.

(** ... and from the [await] on. *)
Definition checkError_resume (fetch : string → FetchResult) (cell : nat)
    (checkPath : string) (silent : bool) (onUpdateDetected : option UpdateCallback) : JS unit :=
  newVersion ← getETag fetch checkPath silent;
  sv ← get_sysVersion;
  (if truthy_opt sv && truthy newVersion && strict_neq sv newVersion then
     match onUpdateDetected with
     | Some cb => emit (ECallback cb)
     | None => showUpdateDialog silent
     end
   else skip);;
  put_errorCount cell 0.

(** [ignorePaths && ignorePaths.test(window.location.pathname)] *)
Definition ignored (env : Env) : JS bool :=
  gets (λ w, match e_ignorePaths env with
             | Some re => re (pathname (window w))
             | None => false
             end).

(** The arrow function [setupVersionWatcher] passes to [hookHistoryChange],
    and, with the same body, to [addEventListener("popstate", ...)]. *)
Definition on_navigation (env : Env) : JS unit :=
  skipped ← ignored env;
  if skipped : bool then unless (e_silent env) (console_log MsgIgnoreNavigation)
  else call_versionUpdateHandler env.

(** [hookHistoryChange(callback)]; at the two reads the properties are set,
    so the default is never taken. *)
Definition hookHistoryChange (env : Env) : JS unit :=
  saved ← gets (λ w, ORIGINAL_PUSH_STATE (window w));
  (if saved is None then
     modify (with_window (λ d, set_ORIGINAL_PUSH_STATE (Some (pushState d)) d))
   else skip);;
  saved ← gets (λ w, ORIGINAL_REPLACE_STATE (window w));
  (if saved is None then
     modify (with_window (λ d, set_ORIGINAL_REPLACE_STATE (Some (replaceState d)) d))
   else skip);;
  originalPushState ← gets (λ w, default NativeHistoryFn (ORIGINAL_PUSH_STATE (window w)));
  originalReplaceState ← gets (λ w, default NativeHistoryFn (ORIGINAL_REPLACE_STATE (window w)));
  modify (with_window (set_pushState (HookedHistoryFn originalPushState env)));;
  modify (with_window (set_replaceState (HookedHistoryFn originalReplaceState env))).

(** Calling [history.pushState(...)] or [history.replaceState(...)] with a
    URL of path [path]. *)
Fixpoint call_history (f : HistoryFn) (path : string) : JS unit :=
  match f with
  | NativeHistoryFn => modify (with_window (set_pathname path))
  | HookedHistoryFn original env =>
      call_history original path;;
      on_navigation env
  end.

(** [setupErrorMonitoring(checkPath, silent, onUpdateDetected)] *)
Definition setupErrorMonitoring (env : Env) : JS unit :=
  cell ← gets (λ w, List.length (errorCount (cells w)));
  modify (with_cells (λ cs, set_errorCount (errorCount cs ++ [0]) cs));;
  checkError ← debounce (TaskCheckError cell env) (Some 1000);
  modify (with_window (λ d,
    set_errorListeners (errorListeners d ++ [OnError cell checkError env]) d)).

(** The [error] listener. *)
Definition on_error (l : ErrorListener) (target : option Target) : JS unit :=
  let '(OnError cell checkError env) := l in
  let url := js_or (target ≫= src) (target ≫= href) in
  if negb (truthy_opt url) then skip
  else
    here ← gets (λ w, origin (window w));
    if negb (startsWith (default "" url) here) then skip
    else
      match target with
      | Some t =>
          if String.eqb (tagName t) "SCRIPT" || String.eqb (tagName t) "LINK" then
            unless (e_silent env) (console_warn (MsgAssetFailed (default "" url)));;
            n ← get_errorCount cell;
            put_errorCount cell (S n);;
            call_debounced checkError
          else skip
      | None => skip
      end.

(** [if (checkTimer)]: a handle is a positive number, hence truthy. *)
Definition truthy_handle (o : option positive) : bool :=
  match o with Some _ => true | None => false end.

(** [destroyVersionWatcher()] *)
Definition destroyVersionWatcher : JS unit :=
  t ← gets (λ w, checkTimer (watcher w));
  (if truthy_handle t then
     clearTimer t;;
     modify (with_watcher (set_checkTimer None))
   else skip);;
  modify (with_watcher (set_isInitialized false));;
  saved ← gets (λ w, ORIGINAL_PUSH_STATE (window w));
  (if saved is Some f then modify (with_window (set_pushState f)) else skip);;
  saved ← gets (λ w, ORIGINAL_REPLACE_STATE (window w));
  (if saved is Some f then modify (with_window (set_replaceState f)) else skip);;
  console_log MsgDestroyed.

(** [setupVersionWatcher(options)] *)
Definition setupVersionWatcher (options : VersionWatcherOptions) : JS unit :=
  here ← gets (λ w, origin (window w));
  let enabled := default true (enabled options) in
  let checkInterval := default 0%Z (checkInterval options) in
  let checkPath := default (here ++ "/")%string (checkPath options) in
  let silent := default false (silent options) in
  let env := {| e_checkPath := checkPath; e_silent := silent;
                e_onUpdateDetected := onUpdateDetected options;
                e_ignorePaths := ignorePaths options |} in
  if negb enabled then unless silent (console_log MsgDisabled)
  else
    initialized ← gets (λ w, isInitialized (watcher w));
    if initialized : bool then unless silent (console_warn MsgAlreadyRegistered)
    else
      modify (with_watcher (set_isInitialized true));;
      unless silent (console_log MsgEnabled);;
      skipped ← ignored env;
      if skipped : bool then unless silent (console_log MsgIgnoreCurrentPath)
      else
        (if (0 <? checkInterval)%Z then
           h ← setInterval (TaskInterval env) (Z.to_nat checkInterval);
           modify (with_watcher (set_checkTimer (Some h)))
         else skip);;
        hookHistoryChange env;;
        modify (with_window (λ d, set_popstateListeners (popstateListeners d ++ [OnPopstate env]) d));;
        setupErrorMonitoring env;;
        call_versionUpdateHandler env.

(** ** The event loop *)

Definition run_task (t : Task) : JS unit :=
  match t with
  | TaskInterval env => call_versionUpdateHandler env
  | TaskCheckError cell env => checkError_fn cell env
  | TaskShowDialog silent => showDialog_fn silent
  end.

(** Resume a parked [async] function with the settled request. *)
Definition resume (fetch : string → FetchResult) (k : Kont) : JS unit :=
  match k with
  | KVersionUpdateHandler env =>
      versionUpdateHandler fetch (e_checkPath env) (e_silent env) (e_onUpdateDetected env)
  | KCheckError cell env =>
      checkError_resume fetch cell (e_checkPath env) (e_silent env) (e_onUpdateDetected env)
  end.

Definition is_due (t_now : nat) (t : Timer) : bool := (due t <=? t_now)%nat.

Definition registered (h : positive) (w : World) : bool :=
  existsb (λ t, Pos.eqb (handle t) h) (timers (loop w)).

(** A timeout leaves the queue when it fires, an interval is set again one
    period later. *)
Definition rearm (t : Timer) (w : World) : World :=
  match period t with
  | None => with_loop (λ l, set_timers (List.filter (keep_other (handle t)) (timers l)) l) w
  | Some p =>
      with_loop (λ l, set_timers
        (map (λ u, if Pos.eqb (handle u) (handle t)
                   then {| handle := handle u; due := now l + p; period := period u; task := task u |}
                   else u) (timers l)) l) w
  end.

(** Fire the timers that came due, oldest first; one that was cleared in
    the meantime, or that comes after a reload, does not run. *)
Fixpoint fire (batch : list Timer) (w : World) : World :=
  match batch with
  | [] => w
  | t :: rest =>
      if reloaded (loop w) || negb (registered (handle t) w) then fire rest w
      else fire rest (exec (run_task (task t)) (rearm t w))
  end.

(** One millisecond passes. *)
Definition tick (w : World) : World :=
  let w' := with_loop (λ l, set_now (S (now l)) l) w in
  fire (List.filter (is_due (now (loop w'))) (timers (loop w'))) w'.

Fixpoint elapse (ms : nat) (w : World) : World :=
  match ms with
  | O => w
  | S n => elapse n (tick w)
  end.

(** Listeners are called one after the other, each to its end. *)
Fixpoint dispatch {L : Type} (call : L → JS unit) (listeners : list L) (w : World) : World :=
  match listeners with
  | [] => w
  | l :: rest => dispatch call rest (exec (call l) w)
  end.

Definition on_popstate (l : PopstateListener) : JS unit :=
  let '(OnPopstate env) := l in on_navigation env.

(** What the page and its user can do. *)
Inductive Event :=
| CallSetup (options : VersionWatcherOptions)
| CallDestroy
| CallPushState (path : string)
| CallReplaceState (path : string)
| Popstate (path : string)
| ErrorEvent (target : option Target)
| Elapse (ms : nat)
| FetchSettles (id : nat) (result : FetchResult)
| DialogAnswered (accept : bool).

Definition take_pending (id : nat) (w : World) : option Kont :=
  snd <$> List.find (λ p, Nat.eqb (fst p) id) (pending (loop w)).

Definition drop_pending (id : nat) (w : World) : World :=
  with_loop (λ l, set_pending (List.filter (λ p, negb (Nat.eqb (fst p) id)) (pending l)) l) w.

Definition react (e : Event) (w : World) : World :=
  match e with
  | CallSetup options => exec (setupVersionWatcher options) w
  | CallDestroy => exec destroyVersionWatcher w
  | CallPushState path => exec (call_history (pushState (window w)) path) w
  | CallReplaceState path => exec (call_history (replaceState (window w)) path) w
  | Popstate path =>
      dispatch on_popstate (popstateListeners (window w)) (with_window (set_pathname path) w)
  | ErrorEvent target =>
      dispatch (λ l, on_error l target) (errorListeners (window w)) w
  | Elapse ms => elapse ms w
  | FetchSettles id result =>
      match take_pending id w with
      | Some k => exec (resume (λ _, result) k) (drop_pending id w)
      | None => w
      end
  | DialogAnswered accept => exec (dialog_answered accept) w
  end.

(** After [location.reload()] this document is gone. *)
Definition step (w : World) (e : Event) : World :=
  if reloaded (loop w) then w else react e w.

Definition run (es : list Event) (w : World) : World := fold_left step es w.

(** A freshly loaded page. *)
Definition page (origin path : string) (rich : bool) (answers : list bool) : World :=
  {| watcher := {| sysVersion := None; checkTimer := None; isInitialized := false |};
     window := {| origin := origin; pathname := path;
                  ORIGINAL_PUSH_STATE := None; ORIGINAL_REPLACE_STATE := None;
                  pushState := NativeHistoryFn; replaceState := NativeHistoryFn;
                  popstateListeners := []; errorListeners := [];
                  ElMessageBox := rich; ElMessage := rich |};
     cells := {| errorCount := []; debounceTimer := [] |};
     loop := {| now := 0; nextHandle := 1%positive; timers := [];
                nextFetch := 0; pending := []; confirmAnswers := answers;
                openDialogs := 0; reloaded := false |};
     console := []; effects := [] |}.

(** ** Observations *)

Definition notifications (w : World) : list Effect := List.filter is_notification (effects w).
Definition probes (w : World) : list Effect := List.filter is_fetch (effects w).
Definition dialogs (w : World) : list Effect := List.filter is_dialog (effects w).

(** Did this stretch of the run notify? *)
Definition notified (before after : World) : bool :=
  (List.length (notifications before) <? List.length (notifications after))%nat.

(** Servers' answers used in the examples. *)
Definition etag (v : string) : FetchResult :=
  FetchResolved {| status := 200; statusText := "OK";
                   header_etag := Some v; header_last_modified := None |}.
Definition http_error (code : nat) : FetchResult :=
  FetchResolved {| status := code; statusText := "";
                   header_etag := None; header_last_modified := None |}.

Definition script (url : string) : option Target :=
  Some {| tagName := "SCRIPT"; src := Some url; href := None |}.

(** ** Reference definitions, after the specification's wording *)

(** Fingerprint precedence: the change-tag header, else the
    last-modification header, else the empty string. *)
Definition fingerprint_by_precedence (res : Response) : string :=
  match header_etag res, header_last_modified res with
  | Some (String c e), _ => String c e
  | _, Some (String c m) => String c m
  | _, _ => ""
  end.

(** What a probe reports for a settled request: the fingerprint of a
    successful response, the empty fingerprint otherwise. *)
Definition probe_result (r : FetchResult) : string :=
  match r with
  | FetchResolved res => if ok res then fingerprint_by_precedence res else ""
  | FetchRejected _ => ""
  end.

(** What a probe writes on the console. *)
Definition probe_log (silent : bool) (r : FetchResult) : list LogEntry :=
  match r with
  | FetchResolved res =>
      if ok res then []
      else if silent then []
      else [ConsoleWarn (MsgGetETagFailed (HttpError (status res) (statusText res)))]
  | FetchRejected reason =>
      if silent then [] else [ConsoleWarn (MsgGetETagFailed (TransportError reason))]
  end.

(** The divergence rule: a baseline exists, the probed fingerprint is not
    empty, and the two differ. *)
Definition diverges (baseline : option string) (probed : string) : Prop :=
  ∃ a, baseline = Some a ∧ a ≠ "" ∧ probed ≠ "" ∧ a ≠ probed.

(** Same origin: scheme, host and port identical to the page's.  The origin
    of an absolute URL is its text up to the end of the authority, that is
    up to the first of "/", "?" and "#" after "://". *)
Fixpoint authority_length (s : string) : nat :=
  match s with
  | EmptyString => 0
  | String c rest =>
      if Ascii.eqb c "/"%char || Ascii.eqb c "?"%char || Ascii.eqb c "#"%char then 0
      else S (authority_length rest)
  end.

Definition url_origin (url : string) : string :=
  match String.index 0 "://" url with
  | Some i =>
      let from := i + 3 in
      String.substring 0 (from + authority_length (String.substring from (String.length url) url)) url
  | None => url
  end.

Definition same_origin (url page_origin : string) : bool :=
  String.eqb (url_origin url) page_origin.

(** The notification an evaluation fires: the callback if one was given,
    the default flow otherwise. *)
Definition notification_of (silent : bool) (cb : option UpdateCallback) : Effect :=
  match cb with
  | Some f => ECallback f
  | None => EShowUpdateDialog silent
  end.

Definition notification_of_kont (k : Kont) : Effect :=
  match k with
  | KVersionUpdateHandler env | KCheckError _ env =>
      notification_of (e_silent env) (e_onUpdateDetected env)
  end.

(** A series of evaluations, each resumed with the same server answer. *)
Definition evaluate (fetch : string → FetchResult) (ks : list Kont) (w : World) : World :=
  fold_left (λ w k, exec (resume fetch k) w) ks w.

(** The page of the examples, and the run that gives it the baseline "v1". *)
Definition example_page : World := page "https://app.example" "/" false [].

Definition with_baseline_v1 : list Event :=
  [CallSetup noOptions; FetchSettles 0 (etag "v1")].

(** The closure environment [setupVersionWatcher(options)] builds on a page
    of origin [here]. *)
Definition env_of (options : VersionWatcherOptions) (here : string) : Env :=
  {| e_checkPath := default (here ++ "/")%string (checkPath options);
     e_silent := default false (silent options);
     e_onUpdateDetected := onUpdateDetected options;
     e_ignorePaths := ignorePaths options |}.

(** [options.ignorePaths] matches [path]. *)
Definition ignores (options : VersionWatcherOptions) (path : string) : bool :=
  match ignorePaths options with
  | Some re => re path
  | None => false
  end.

(** The periodic timer [setupVersionWatcher(options)] arms, if any. *)
Definition interval_of (options : VersionWatcherOptions) (w : World) : list Timer :=
  let ms := default 0%Z (checkInterval options) in
  if (0 <? ms)%Z then
    [{| handle := nextHandle (loop w); due := now (loop w) + Z.to_nat ms;
        period := Some (Z.to_nat ms);
        task := TaskInterval (env_of options (origin (window w))) |}]
  else [].

(** A page on which the watcher has nothing installed and nothing under
    way. *)
Definition inert (w : World) : Prop :=
  isInitialized (watcher w) = true ∧
  checkTimer (watcher w) = None ∧
  timers (loop w) = [] ∧
  pending (loop w) = [] ∧
  popstateListeners (window w) = [] ∧
  errorListeners (window w) = [] ∧
  pushState (window w) = NativeHistoryFn ∧
  replaceState (window w) = NativeHistoryFn ∧
  openDialogs (loop w) = 0 ∧
  effects w = [].

Definition is_destroy (e : Event) : bool :=
  match e with CallDestroy => true | _ => false end.

(** The listener's navigation callback goes on to probe on [path]. *)
Definition listens_on (path : string) (l : PopstateListener) : bool :=
  let '(OnPopstate env) := l in
  negb (match e_ignorePaths env with Some re => re path | None => false end).

(** The listener's filter, as written: a failure counts only if the target
    has a URL, the URL begins with [location.origin], and the element is a
    [SCRIPT] or a [LINK]. *)
Definition counted (here : string) (target : option Target) : bool :=
  match target with
  | Some t =>
      let url := js_or (src t) (href t) in
      truthy_opt url && startsWith (default "" url) here &&
      (String.eqb (tagName t) "SCRIPT" || String.eqb (tagName t) "LINK")
  | None => false
  end.

(** ** Invariants of the event loop *)

(** Handles of the periodic timers in a queue. *)
Fixpoint interval_handles (ts : list Timer) : list positive :=
  match ts with
  | [] => []
  | t :: rest =>
      match period t with
      | Some _ => handle t :: interval_handles rest
      | None => interval_handles rest
      end
  end.

(** What every listener, task and resumed function of the watcher respects:
    it leaves [checkTimer] and [isInitialized] alone, arms no periodic timer,
    and does not touch a baseline that exists. *)
Definition respects (w w' : World) : Prop :=
  checkTimer (watcher w') = checkTimer (watcher w) ∧
  isInitialized (watcher w') = isInitialized (watcher w) ∧
  interval_handles (timers (loop w')) `sublist_of` interval_handles (timers (loop w)) ∧
  (truthy_opt (sysVersion (watcher w)) = true →
   sysVersion (watcher w') = sysVersion (watcher w)).

(** A computation whose every run is related by [R] to its start. *)
Definition frames (R : World → World → Prop) {A} (m : JS A) : Prop :=
  ∀ w, R w (snd (m w)).

(** One Watcher State, one periodic timer: the timer exists only while the
    watcher is initialized, and [checkTimer] holds its handle. *)
Definition one_watcher (w : World) : Prop :=
  (isInitialized (watcher w) = false → checkTimer (watcher w) = None) ∧
  (∀ h, h ∈ interval_handles (timers (loop w)) → checkTimer (watcher w) = Some h) ∧
  (List.length (interval_handles (timers (loop w))) ≤
     if truthy_handle (checkTimer (watcher w)) then 1 else 0)%nat.

(** Setup and teardown, the two calls of the public interface. *)
Definition is_lifecycle (e : Event) : bool :=
  match e with CallSetup _ | CallDestroy => true | _ => false end.

(** ** History hooks and listeners along a run *)

(** Two pages with the same window but for the path shown. *)
Definition same_hooks (w w' : World) : Prop :=
  set_pathname "" (window w') = set_pathname "" (window w).

(** A history function that is the browser's own, or one wrapper around
    it. *)
Definition wrapped_once (f : HistoryFn) : Prop :=
  match f with
  | NativeHistoryFn => True
  | HookedHistoryFn NativeHistoryFn _ => True
  | HookedHistoryFn (HookedHistoryFn _ _) _ => False
  end.

(** What [window.__ORIGINAL_..._STATE__] holds for a history function [f]:
    nothing while [f] is still the browser's own, else the browser's own. *)
Definition saved_for (f : HistoryFn) (saved : option HistoryFn) : Prop :=
  match saved with
  | None => f = NativeHistoryFn
  | Some g => g = NativeHistoryFn
  end.

Definition hooks_wf (w : World) : Prop :=
  wrapped_once (pushState (window w)) ∧
  wrapped_once (replaceState (window w)) ∧
  saved_for (pushState (window w)) (ORIGINAL_PUSH_STATE (window w)) ∧
  saved_for (replaceState (window w)) (ORIGINAL_REPLACE_STATE (window w)).

(** [k] rounds of setup and teardown. *)
Fixpoint cycles (k : nat) (options : VersionWatcherOptions) : list Event :=
  match k with
  | O => []
  | S k' => CallSetup options :: CallDestroy :: cycles k' options
  end.

(** ** Timers the watcher arms *)





(** ** Dialogs and navigation *)

(** The user's answer to the next native [confirm]. *)
Definition next_answer (w : World) : bool :=
  match confirmAnswers (loop w) with
  | a :: _ => a
  | [] => false
  end.

(** What a navigation does once the location shows [path]. *)
Definition navigated (env : Env) (w : World) : World :=
  if listens_on (pathname (window w)) (OnPopstate env)
  then snd (await_fetch (e_checkPath env) (KVersionUpdateHandler env) w)
  else if e_silent env then w
  else with_console (λ c, c ++ [ConsoleLog MsgIgnoreNavigation]) w.

(** ** The Vue plugin *)

(** The part of a Vue application the plugin touches: its own marker
    [app._versionWatcherInstalled], and whether
    [app.config.globalProperties.$versionWatcher] holds the handle
    [{ setup, destroy }]. *)
Record VueApp := {
  _versionWatcherInstalled : bool;
  versionWatcher_handle : bool;
}.

(** The one message [install] writes itself, with [console.warn]. *)
Inductive PluginWarning := PluginAlreadyInstalled.

(** [VueVersionWatcher.install(app, options = {})]: the application as it
    is left, what [install] itself warned, and the page. *)
Definition install (app : VueApp) (options : option VersionWatcherOptions) (w : World)
    : VueApp * list PluginWarning * World :=
  let options := default noOptions options in
  if _versionWatcherInstalled app then (app, [PluginAlreadyInstalled], w)
  else
    let app := {| _versionWatcherInstalled := true;
                  versionWatcher_handle := versionWatcher_handle app |} in
    let app := {| _versionWatcherInstalled := _versionWatcherInstalled app;
                  versionWatcher_handle := true |} in
    (app, [], exec (setupVersionWatcher options) w).

(** ** Activations with a callback *)

(** An activation of [setupVersionWatcher] that was given
    [onUpdateDetected]. *)
Definition custom (env : Env) : Prop := e_onUpdateDetected env ≠ None.

Definition task_custom (t : Task) : Prop :=
  match t with
  | TaskInterval env | TaskCheckError _ env => custom env
  | TaskShowDialog _ => False
  end.

Definition kont_custom (k : Kont) : Prop :=
  match k with KVersionUpdateHandler env | KCheckError _ env => custom env end.

Fixpoint history_custom (f : HistoryFn) : Prop :=
  match f with
  | NativeHistoryFn => True
  | HookedHistoryFn original env => custom env ∧ history_custom original
  end.

Definition popstate_custom (l : PopstateListener) : Prop :=
  let '(OnPopstate env) := l in custom env.

Definition error_custom (l : ErrorListener) : Prop :=
  let '(OnError _ checkError env) := l in custom env ∧ task_custom (d_fn checkError).

(** The effects of the default confirmation flow. *)
Definition is_default_flow (e : Effect) : bool :=
  match e with
  | EShowUpdateDialog _ | EDialog _ | EElMessage | EReload => true
  | EFetch _ _ | ECallback _ => false
  end.

(** Every closure the event loop holds has a callback, and the default flow
    has never run. *)
Definition custom_loop (w : World) : Prop :=
  Forall (λ t, task_custom (task t)) (timers (loop w)) ∧
  Forall (λ p, kont_custom p.2) (pending (loop w)) ∧
  Forall (λ e, is_default_flow e = false) (effects w) ∧
  openDialogs (loop w) = 0 ∧
  reloaded (loop w) = false.

(** Every closure the window holds has a callback. *)
Definition custom_window (w : World) : Prop :=
  Forall popstate_custom (popstateListeners (window w)) ∧
  Forall error_custom (errorListeners (window w)) ∧
  history_custom (pushState (window w)) ∧
  history_custom (replaceState (window w)) ∧
  from_option history_custom True (ORIGINAL_PUSH_STATE (window w)) ∧
  from_option history_custom True (ORIGINAL_REPLACE_STATE (window w)).

Definition keeps_custom (w w' : World) : Prop := custom_loop w → custom_loop w'.

(** Every setup call of a run passes [onUpdateDetected]. *)
Definition always_custom (e : Event) : Prop :=
  match e with
  | CallSetup options => onUpdateDetected options ≠ None
  | _ => True
  end.

(** ** Before a baseline is stored *)

Definition is_dialog_task (t : Task) : bool :=
  match t with
  | TaskShowDialog _ => true
  | TaskInterval _ | TaskCheckError _ _ => false
  end.

(** The function an [error] listener debounces. *)
Definition debounced_task (l : ErrorListener) : Task :=
  let '(OnError _ checkError _) := l in d_fn checkError.

(** No baseline is stored (none, or the empty string) and nothing but
    probes has happened: no notification, no dialog scheduled, open or
    answered, no reload. *)
Definition unprimed (w : World) : Prop :=
  truthy_opt (sysVersion (watcher w)) = false ∧
  Forall (λ e, is_fetch e = true) (effects w) ∧
  Forall (λ t, is_dialog_task (task t) = false) (timers (loop w)) ∧
  Forall (λ l, is_dialog_task (debounced_task l) = false) (errorListeners (window w)) ∧
  openDialogs (loop w) = 0 ∧
  reloaded (loop w) = false.

Definition keeps_unprimed (w w' : World) : Prop := unprimed w → unprimed w'.

(** * Properties *)

(** ** Evaluation of the monad *)

(** Unfold the monad and the one-line accessors, so that [simpl] can run a
    computation on a world. *)
Ltac js_unfold :=
  unfold exec, mbind, JS_bind, mret, JS_ret, try_catch, throw, unless, skip,
    get_sysVersion, put_sysVersion, get_errorCount, put_errorCount,
    console_log, console_warn, emit, modify, gets in *.

Lemma quiet_is_not_one {A} (l : list A) (x : A) : l ≠ l ++ [x].
Proof.
  intros H. apply (f_equal List.length) in H. rewrite length_app in H. simpl in H. lia.
Qed.

Lemma truthy_spec s : truthy s = true ↔ s ≠ "".
Proof.
  unfold truthy. destruct (String.eqb_spec s ""); simpl; split; congruence.
Qed.

Lemma truthy_false s : truthy s = false ↔ s = "".
Proof.
  unfold truthy. destruct (String.eqb_spec s ""); simpl; split; congruence.
Qed.

Lemma or_default_precedence res :
  or_default (js_or (header_etag res) (header_last_modified res)) "" =
  fingerprint_by_precedence res.
Proof.
  unfold fingerprint_by_precedence, js_or, or_default.
  destruct (header_etag res) as [[|c e]|], (header_last_modified res) as [[|d m]|];
    reflexivity.
Qed.

(** The probe as a function of the settled request: its value, and the
    world it leaves. *)
Lemma getETag_eval fetch url silent w :
  getETag fetch url silent w =
  (Normal (probe_result (fetch url)),
   match probe_log silent (fetch url) with
   | [] => w
   | entries => with_console (λ c, c ++ entries) w
   end).
Proof.
  unfold getETag, try_catch, probe_result, probe_log, mbind, JS_bind, mret, JS_ret, throw.
  destruct (fetch url) as [reason|res]; simpl.
  - destruct silent; reflexivity.
  - destruct (ok res); simpl.
    + rewrite or_default_precedence. reflexivity.
    + destruct silent; reflexivity.
Qed.

(** ** The default confirmation flow, evaluated *)

(** [showUpdateDialog] builds its debounced function anew at each call: the
    [timer] it clears is the fresh, empty one, so the call cancels nothing
    and adds one timeout of 500 ms. *)
Lemma showUpdateDialog_eval silent w :
  showUpdateDialog silent w =
  (Normal tt,
   let h := nextHandle (loop w) in
   let entry := {| handle := h; due := now (loop w) + 500; period := None;
                   task := TaskShowDialog silent |} in
   with_cells (λ cs, set_debounceTimer (debounceTimer cs ++ [Some h]) cs)
     (with_loop (λ l, set_timers (timers l ++ [entry]) (set_nextHandle (Pos.succ h) l))
        (with_effects (λ t, t ++ [EShowUpdateDialog silent]) w))).
Proof.
  destruct w as [wa wi [ec dt] lo co ef].
  unfold showUpdateDialog, call_debounced, debounce, emit, modify, gets, setTimeout,
    setTimer, mbind, JS_bind; simpl.
  assert (Hl : (dt ++ [None]) !! List.length dt = Some (@None positive)).
  { apply list_lookup_middle. reflexivity. }
  rewrite Hl; simpl.
  unfold with_cells, with_loop, with_effects, set_debounceTimer; simpl.
  replace (<[List.length dt:=Some (nextHandle lo)]> (dt ++ [None]))
    with (dt ++ [Some (nextHandle lo)]); [reflexivity|].
  rewrite (insert_app_r_alt dt [None] (List.length dt)) by lia.
  rewrite Nat.sub_diag. reflexivity.
Qed.

(** ** The two evaluations *)

(** What [versionUpdateHandler] does once its request has settled: it never
    throws; it primes an absent baseline; against a baseline it notifies when
    the probed value is another string, the empty one included. *)
Lemma versionUpdateHandler_obs fetch cp silent cb w :
  let v := probe_result (fetch cp) in
  let sv := sysVersion (watcher w) in
  let w' := exec (versionUpdateHandler fetch cp silent cb) w in
  fst (versionUpdateHandler fetch cp silent cb w) = Normal tt ∧
  watcher w' = (if truthy_opt sv then watcher w else set_sysVersion (Some v) (watcher w)) ∧
  window w' = window w ∧
  errorCount (cells w') = errorCount (cells w) ∧
  effects w' = effects w ++
    (if truthy_opt sv && strict_neq sv v then [notification_of silent cb] else []).
Proof.
  unfold versionUpdateHandler. js_unfold. rewrite getETag_eval.
  destruct w as [[sv ct ini] wi cs lo co ef]; simpl.
  destruct (probe_log silent (fetch cp)) as [|entry entries]; simpl;
    destruct (truthy_opt sv); simpl; rewrite ?app_nil_r; auto;
    destruct (strict_neq sv (probe_result (fetch cp))); simpl; rewrite ?app_nil_r; auto;
    destruct silent, cb as [f|]; simpl; rewrite ?showUpdateDialog_eval; simpl; auto.
Qed.

(** What [checkError] does once its request has settled: it notifies under
    the divergence rule only, never moves the baseline, and zeroes its
    tally. *)
Lemma checkError_resume_obs fetch cell cp silent cb w :
  let v := probe_result (fetch cp) in
  let sv := sysVersion (watcher w) in
  let w' := exec (checkError_resume fetch cell cp silent cb) w in
  fst (checkError_resume fetch cell cp silent cb w) = Normal tt ∧
  watcher w' = watcher w ∧
  window w' = window w ∧
  errorCount (cells w') = <[cell := 0]> (errorCount (cells w)) ∧
  effects w' = effects w ++
    (if truthy_opt sv && truthy v && strict_neq sv v then [notification_of silent cb] else []).
Proof.
  unfold checkError_resume. js_unfold. rewrite getETag_eval.
  destruct w as [[sv ct ini] wi cs lo co ef]; simpl.
  destruct (probe_log silent (fetch cp)) as [|entry entries]; simpl;
    destruct (truthy_opt sv && truthy (probe_result (fetch cp))
              && strict_neq sv (probe_result (fetch cp))); simpl;
    rewrite ?app_nil_r; auto;
    destruct cb as [f|]; simpl; rewrite ?showUpdateDialog_eval; simpl; auto.
Qed.

Lemma notifications_app w w' l :
  effects w' = effects w ++ l →
  notifications w' = notifications w ++ List.filter is_notification l.
Proof. unfold notifications. intros ->. apply List.filter_app. Qed.

(** The asset-error path notifies exactly under the divergence rule. *)
Lemma checkError_resume_notifies_iff fetch cell cp silent cb w :
  notifications (exec (checkError_resume fetch cell cp silent cb) w) =
    notifications w ++ [notification_of silent cb]
  ↔ diverges (sysVersion (watcher w)) (probe_result (fetch cp)).
Proof.
  destruct (checkError_resume_obs fetch cell cp silent cb w) as (_ & _ & _ & _ & He).
  apply notifications_app in He. rewrite He. unfold diverges.
  destruct (sysVersion (watcher w)) as [a|]; simpl.
  - destruct (truthy a) eqn:Ha; simpl.
    + destruct (truthy (probe_result (fetch cp))) eqn:Hv; simpl.
      * destruct (String.eqb_spec a (probe_result (fetch cp))) as [Heq|Hne]; simpl.
        -- rewrite app_nil_r. split; [by intros ?%quiet_is_not_one|].
           intros (a' & [= <-] & _ & _ & Hd). congruence.
        -- split; [|by destruct cb].
           intros _. exists a. apply truthy_spec in Ha, Hv. auto.
      * rewrite app_nil_r. apply truthy_false in Hv.
        split; [by intros ?%quiet_is_not_one|].
        intros (a' & _ & _ & Hd & _). congruence.
    + rewrite app_nil_r. apply truthy_false in Ha.
      split; [by intros ?%quiet_is_not_one|].
      intros (a' & [= <-] & Hd & _). congruence.
  - rewrite app_nil_r. split; [by intros ?%quiet_is_not_one|].
    intros (a' & [=] & _).
Qed.

(** The timer and navigation path asks less: a baseline, and a probed value
    that is another string. *)
Lemma versionUpdateHandler_notifies_iff fetch cp silent cb w :
  notifications (exec (versionUpdateHandler fetch cp silent cb) w) =
    notifications w ++ [notification_of silent cb]
  ↔ ∃ a, sysVersion (watcher w) = Some a ∧ a ≠ "" ∧ a ≠ probe_result (fetch cp).
Proof.
  destruct (versionUpdateHandler_obs fetch cp silent cb w) as (_ & _ & _ & _ & He).
  apply notifications_app in He. rewrite He.
  destruct (sysVersion (watcher w)) as [a|]; simpl.
  - destruct (truthy a) eqn:Ha; simpl.
    + destruct (String.eqb_spec a (probe_result (fetch cp))) as [Heq|Hne]; simpl.
      * rewrite app_nil_r. split; [by intros ?%quiet_is_not_one|].
        intros (a' & [= <-] & _ & Hd). congruence.
      * split; [|by destruct cb].
        intros _. exists a. apply truthy_spec in Ha. auto.
    + rewrite app_nil_r. apply truthy_false in Ha.
      split; [by intros ?%quiet_is_not_one|].
      intros (a' & [= <-] & Hd & _). congruence.
  - rewrite app_nil_r. split; [by intros ?%quiet_is_not_one|].
    intros (a' & [=] & _).
Qed.

(** ** Evaluations against a diverged server *)

Lemma resume_diverged fetch k a w :
  sysVersion (watcher w) = Some a →
  a ≠ "" →
  (∀ url, probe_result (fetch url) ≠ "") →
  (∀ url, probe_result (fetch url) ≠ a) →
  let w' := exec (resume fetch k) w in
  sysVersion (watcher w') = Some a ∧
  notifications w' = notifications w ++ [notification_of_kont k].
Proof.
  intros Hsv Ha Hb Hab. apply truthy_spec in Ha.
  destruct k as [env|cell env]; simpl.
  - destruct (versionUpdateHandler_obs fetch (e_checkPath env) (e_silent env)
                (e_onUpdateDetected env) w) as (_ & Hw & _ & _ & He).
    rewrite Hsv in Hw, He. simpl in Hw, He. rewrite Ha in Hw, He.
    rewrite Hw. split; [exact Hsv|].
    apply notifications_app in He. rewrite He. f_equal.
    pose proof (Hab (e_checkPath env)) as Hne.
    destruct (String.eqb_spec a (probe_result (fetch (e_checkPath env)))); simpl;
      [congruence | by destruct (e_onUpdateDetected env)].
  - destruct (checkError_resume_obs fetch cell (e_checkPath env) (e_silent env)
                (e_onUpdateDetected env) w) as (_ & Hw & _ & _ & He).
    rewrite Hsv in He. simpl in He. rewrite Ha in He.
    rewrite Hw. split; [exact Hsv|].
    apply notifications_app in He. rewrite He. f_equal.
    pose proof (Hab (e_checkPath env)) as Hne.
    pose proof (Hb (e_checkPath env)) as Hb'. apply truthy_spec in Hb'. rewrite Hb'. simpl.
    destruct (String.eqb_spec a (probe_result (fetch (e_checkPath env)))); simpl;
      [congruence | by destruct (e_onUpdateDetected env)].
Qed.

(** ** Setup and teardown *)

Lemma registered_cleared h ts :
  existsb (λ t, Pos.eqb (handle t) h) (List.filter (keep_other h) ts) = false.
Proof.
  induction ts as [|t ts IH]; simpl; [reflexivity|].
  unfold keep_other at 1. destruct (Pos.eqb (handle t) h) eqn:E; simpl; [exact IH|].
  rewrite E. exact IH.
Qed.

(** [destroyVersionWatcher], field by field. *)
Lemma destroyVersionWatcher_obs w :
  let w' := exec destroyVersionWatcher w in
  fst (destroyVersionWatcher w) = Normal tt ∧
  watcher w' = {| sysVersion := sysVersion (watcher w); checkTimer := None;
                  isInitialized := false |} ∧
  window w' =
    set_replaceState (default (replaceState (window w)) (ORIGINAL_REPLACE_STATE (window w)))
      (set_pushState (default (pushState (window w)) (ORIGINAL_PUSH_STATE (window w)))
         (window w)) ∧
  cells w' = cells w ∧
  loop w' = set_timers
    match checkTimer (watcher w) with
    | Some h => List.filter (keep_other h) (timers (loop w))
    | None => timers (loop w)
    end (loop w) ∧
  console w' = console w ++ [ConsoleLog MsgDestroyed] ∧
  effects w' = effects w.
Proof.
  destruct w as [[sv ct ini] [o p op or ps rs pl el mb m] cs [n nh ts nf pe ca od re] co ef].
  unfold destroyVersionWatcher, clearTimer. js_unfold.
  destruct ct as [h|], op as [f|], or as [g|]; simpl; auto 10.
Qed.

(** [setupVersionWatcher] on a page where it goes all the way. *)
Lemma setupVersionWatcher_arms options w :
  default true (enabled options) = true →
  isInitialized (watcher w) = false →
  ignores options (pathname (window w)) = false →
  let w' := exec (setupVersionWatcher options) w in
  let env := env_of options (origin (window w)) in
  let push0 := default (pushState (window w)) (ORIGINAL_PUSH_STATE (window w)) in
  let replace0 := default (replaceState (window w)) (ORIGINAL_REPLACE_STATE (window w)) in
  watcher w' =
    {| sysVersion := sysVersion (watcher w);
       checkTimer := match interval_of options w with
                     | t :: _ => Some (handle t)
                     | [] => checkTimer (watcher w)
                     end;
       isInitialized := true |} ∧
  timers (loop w') = timers (loop w) ++ interval_of options w ∧
  pushState (window w') = HookedHistoryFn push0 env ∧
  replaceState (window w') = HookedHistoryFn replace0 env ∧
  ORIGINAL_PUSH_STATE (window w') = Some push0 ∧
  ORIGINAL_REPLACE_STATE (window w') = Some replace0 ∧
  popstateListeners (window w') = popstateListeners (window w) ++ [OnPopstate env] ∧
  errorListeners (window w') = errorListeners (window w) ++
    [OnError (List.length (errorCount (cells w)))
       {| d_timer := List.length (debounceTimer (cells w));
          d_fn := TaskCheckError (List.length (errorCount (cells w))) env;
          d_delay := 1000 |} env] ∧
  pending (loop w') = pending (loop w) ++ [(nextFetch (loop w), KVersionUpdateHandler env)] ∧
  effects w' = effects w ++ [EFetch (nextFetch (loop w)) (e_checkPath env)].
Proof.
  destruct w as [[sv ct ini] [o p op or ps rs pl el mb m] [ec dt] [n nh ts nf pe ca od re] co ef].
  destruct options as [en ci cp si cb ig].
  unfold ignores, interval_of, env_of; simpl. intros Hen -> Hig.
  unfold setupVersionWatcher, ignored, hookHistoryChange, setupErrorMonitoring, debounce,
    call_versionUpdateHandler, await_fetch, setInterval, setTimer.
  js_unfold. simpl. rewrite Hen. simpl.
  destruct (default false si), ig as [re'|]; simpl; rewrite ?Hig; simpl;
    destruct (0 <? default 0 ci)%Z, op as [f|], or as [g|]; simpl;
    rewrite ?app_nil_r; auto 12.
Qed.

(** [setupVersionWatcher] on a page where the watcher is already set up. *)
Lemma setupVersionWatcher_again options w :
  default true (enabled options) = true →
  isInitialized (watcher w) = true →
  setupVersionWatcher options w =
  (Normal tt,
   if default false (silent options) then w
   else with_console (λ c, c ++ [ConsoleWarn MsgAlreadyRegistered]) w).
Proof.
  intros Hen Hin. unfold setupVersionWatcher. js_unfold. rewrite Hen. simpl.
  rewrite Hin.
  destruct (default false (silent options)); reflexivity.
Qed.

(** [setupVersionWatcher] with [enabled: false]. *)
Lemma setupVersionWatcher_disabled options w :
  default true (enabled options) = false →
  setupVersionWatcher options w =
  (Normal tt,
   if default false (silent options) then w
   else with_console (λ c, c ++ [ConsoleLog MsgDisabled]) w).
Proof.
  intros Hen. unfold setupVersionWatcher. js_unfold. rewrite Hen. simpl.
  destruct (default false (silent options)); reflexivity.
Qed.

(** [setupVersionWatcher] on a path that [ignorePaths] matches: the flag is
    raised (if it was not), the console may grow, and that is all. *)
Lemma setupVersionWatcher_bypassed options w :
  ignores options (pathname (window w)) = true →
  let w' := exec (setupVersionWatcher options) w in
  fst (setupVersionWatcher options w) = Normal tt ∧
  sysVersion (watcher w') = sysVersion (watcher w) ∧
  checkTimer (watcher w') = checkTimer (watcher w) ∧
  isInitialized (watcher w') = isInitialized (watcher w) || default true (enabled options) ∧
  window w' = window w ∧
  cells w' = cells w ∧
  loop w' = loop w ∧
  effects w' = effects w.
Proof.
  destruct w as [[sv ct ini] wi cs lo co ef].
  destruct options as [en ci cp si cb ig].
  unfold ignores; simpl. intros Hig.
  unfold setupVersionWatcher, ignored. js_unfold. simpl.
  destruct (default true en), ini, (default false si); simpl; auto 10;
    destruct ig as [re'|]; try discriminate; rewrite ?Hig; simpl; auto 10.
Qed.

Lemma setupVersionWatcher_initializes options w :
  default true (enabled options) = true →
  isInitialized (watcher (exec (setupVersionWatcher options) w)) = true.
Proof.
  intros Hen.
  destruct (isInitialized (watcher w)) eqn:Hin.
  - unfold exec. rewrite setupVersionWatcher_again by assumption. simpl.
    destruct (default false (silent options)); exact Hin.
  - destruct (ignores options (pathname (window w))) eqn:Hig.
    + destruct (setupVersionWatcher_bypassed options w Hig) as (_ & _ & _ & H & _).
      rewrite H, Hen. apply orb_true_r.
    + destruct (setupVersionWatcher_arms options w Hen Hin Hig) as (H & _).
      rewrite H. reflexivity.
Qed.

(** What [setupVersionWatcher] never touches, whichever way it returns. *)
Lemma setupVersionWatcher_keeps options w :
  let w' := exec (setupVersionWatcher options) w in
  origin (window w') = origin (window w) ∧
  pathname (window w') = pathname (window w) ∧
  ElMessageBox (window w') = ElMessageBox (window w) ∧
  now (loop w') = now (loop w) ∧
  confirmAnswers (loop w') = confirmAnswers (loop w) ∧
  openDialogs (loop w') = openDialogs (loop w) ∧
  reloaded (loop w') = reloaded (loop w) ∧
  sysVersion (watcher w') = sysVersion (watcher w).
Proof.
  destruct (default true (enabled options)) eqn:Hen.
  - destruct (isInitialized (watcher w)) eqn:Hin.
    + unfold exec. rewrite setupVersionWatcher_again by assumption. simpl.
      destruct (default false (silent options)); simpl; auto 10.
    + destruct (ignores options (pathname (window w))) eqn:Hig.
      * destruct (setupVersionWatcher_bypassed options w Hig)
          as (_ & Hsv & _ & _ & Hwi & _ & Hlo & _).
        simpl. rewrite Hwi, Hlo, Hsv. auto 10.
      * clear Hig Hin Hen.
        destruct w as [[sv ct ini] [o p op or ps rs pl el mb m] [ec dt]
                         [n nh ts nf pe ca od re] co ef].
        destruct options as [en ci cp si cb ig].
        unfold setupVersionWatcher, ignored, hookHistoryChange, setupErrorMonitoring,
          debounce, call_versionUpdateHandler, await_fetch, setInterval, setTimer.
        js_unfold. simpl.
        destruct (default true en), ini, (default false si); simpl; auto 10;
          destruct ig as [re'|]; simpl; try destruct (re' p); simpl; auto 10;
          destruct (0 <? default 0 ci)%Z, op as [f|], or as [g|]; simpl; auto 10.
  - unfold exec. rewrite setupVersionWatcher_disabled by assumption. simpl.
    destruct (default false (silent options)); simpl; auto 10.
Qed.

(** ** The inert page *)

Lemma inert_console f w : inert w → inert (with_console f w).
Proof. exact id. Qed.

Lemma inert_pathname path w : inert w → inert (with_window (set_pathname path) w).
Proof. exact id. Qed.

Lemma inert_elapse ms w : inert w → inert (elapse ms w).
Proof.
  revert w. induction ms as [|ms IH]; intros w Hw; simpl; [exact Hw|].
  apply IH. unfold tick. simpl.
  destruct Hw as (? & ? & Ht & ?). rewrite Ht. simpl.
  unfold inert; simpl. auto 12.
Qed.

(** On an inert page nothing but teardown followed by a setup can make the
    watcher act. *)
Lemma inert_step w e : inert w → is_destroy e = false → inert (step w e).
Proof.
  intros Hw He. unfold step. destruct (reloaded (loop w)); [exact Hw|].
  pose proof Hw as (Hin & Hct & Ht & Hp & Hpl & Hel & Hps & Hrs & Hod & Hef).
  destruct e as [options| |path|path|path|target|ms|id result|accept]; simpl;
    try discriminate.
  - destruct (default true (enabled options)) eqn:Hen; unfold exec.
    + rewrite setupVersionWatcher_again by assumption. simpl.
      destruct (default false (silent options)); [exact Hw | by apply inert_console].
    + rewrite setupVersionWatcher_disabled by assumption. simpl.
      destruct (default false (silent options)); [exact Hw | by apply inert_console].
  - rewrite Hps. simpl. by apply inert_pathname.
  - rewrite Hrs. simpl. by apply inert_pathname.
  - rewrite Hpl. simpl. by apply inert_pathname.
  - rewrite Hel. simpl. exact Hw.
  - by apply inert_elapse.
  - unfold take_pending. rewrite Hp. simpl. exact Hw.
  - unfold dialog_answered. js_unfold. rewrite Hod. exact Hw.
Qed.

Lemma inert_run es w : inert w → forallb (λ e, negb (is_destroy e)) es = true → inert (run es w).
Proof.
  revert w. induction es as [|e es IH]; intros w Hw Hes; simpl; [exact Hw|].
  simpl in Hes. apply andb_prop in Hes as [He Hes].
  apply IH; [|exact Hes]. apply inert_step; [exact Hw|].
  by destruct (is_destroy e).
Qed.

(** ** Navigation listeners *)

Lemma on_navigation_obs env w :
  let w' := exec (on_navigation env) w in
  window w' = window w ∧
  reloaded (loop w') = reloaded (loop w) ∧
  effects w' = effects w ++
    (if listens_on (pathname (window w)) (OnPopstate env)
     then [EFetch (nextFetch (loop w)) (e_checkPath env)] else []).
Proof.
  unfold on_navigation, ignored, call_versionUpdateHandler, await_fetch, listens_on.
  js_unfold. simpl.
  destruct (e_ignorePaths env) as [re|]; simpl; [destruct (re _); simpl|]; auto;
    destruct (e_silent env); simpl; rewrite ?app_nil_r; auto.
Qed.

(** A [popstate] event makes every listener probe, but those that ignore
    the path. *)
Lemma dispatch_popstate_probes ls w :
  let w' := dispatch on_popstate ls w in
  window w' = window w ∧
  List.length (probes w') =
    List.length (probes w) + List.length (List.filter (listens_on (pathname (window w))) ls).
Proof.
  revert w. induction ls as [|[env] ls IH]; intros w; simpl; [auto|].
  destruct (on_navigation_obs env w) as (Hwi & _ & Hef).
  destruct (IH (exec (on_navigation env) w)) as (IHw & IHp).
  rewrite IHw, IHp, Hwi. split; [reflexivity|].
  unfold probes at 1. rewrite Hef, List.filter_app, length_app. fold (probes w).
  unfold listens_on.
  destruct (e_ignorePaths env) as [re|]; [destruct (re _)|]; simpl; lia.
Qed.

(** ** The asset-error correlator *)

(** When the debounce window closes, [checkError] probes if and only if its
    tally is above one; otherwise it zeroes the tally at once. *)
Lemma checkError_fn_obs cell env w :
  let n := default 0 (errorCount (cells w) !! cell) in
  let w' := exec (checkError_fn cell env) w in
  effects w' = effects w ++
    (if (1 <? n)%nat then [EFetch (nextFetch (loop w)) (e_checkPath env)] else []) ∧
  pending (loop w') = pending (loop w) ++
    (if (1 <? n)%nat then [(nextFetch (loop w), KCheckError cell env)] else []) ∧
  errorCount (cells w') =
    (if (1 <? n)%nat then errorCount (cells w) else <[cell := 0]> (errorCount (cells w))).
Proof.
  unfold checkError_fn, await_fetch. js_unfold. simpl.
  destruct (1 <? default 0 (errorCount (cells w) !! cell))%nat; simpl;
    rewrite ?app_nil_r; auto.
Qed.

Lemma on_error_filtered cell deb env target w :
  counted (origin (window w)) target = false →
  exec (on_error (OnError cell deb env) target) w = w.
Proof.
  unfold counted, on_error. js_unfold.
  destruct target as [t|]; simpl; [|reflexivity].
  destruct (truthy_opt (js_or (src t) (href t))); simpl; [|reflexivity].
  destruct (startsWith _ _); simpl; [|reflexivity].
  destruct (String.eqb (tagName t) "SCRIPT" || String.eqb (tagName t) "LINK");
    [discriminate | reflexivity].
Qed.

(** A failure that counts raises the tally and restarts the window: the
    pending [checkError] timeout, if any, is cleared and one is set a full
    delay (1000 ms, as [setupErrorMonitoring] builds it) ahead. *)
Lemma on_error_counted cell deb env target w :
  counted (origin (window w)) target = true →
  let w' := exec (on_error (OnError cell deb env) target) w in
  errorCount (cells w') =
    <[cell := S (default 0 (errorCount (cells w) !! cell))]> (errorCount (cells w)) ∧
  timers (loop w') =
    match mjoin (debounceTimer (cells w) !! d_timer deb) with
    | Some h => List.filter (keep_other h) (timers (loop w))
    | None => timers (loop w)
    end ++ [{| handle := nextHandle (loop w); due := now (loop w) + d_delay deb;
               period := None; task := d_fn deb |}] ∧
  effects w' = effects w.
Proof.
  unfold counted, on_error, call_debounced, clearTimer, setTimeout, setTimer. js_unfold.
  destruct target as [t|]; simpl; [|discriminate].
  destruct (truthy_opt (js_or (src t) (href t))); simpl; [|discriminate].
  destruct (startsWith _ _); simpl; [|discriminate].
  destruct (String.eqb (tagName t) "SCRIPT" || String.eqb (tagName t) "LINK");
    [|discriminate].
  intros _.
  destruct (e_silent env); simpl;
    destruct (mjoin (debounceTimer (cells w) !! d_timer deb)); simpl; auto.
Qed.

(** ** What the watcher's code respects *)

Section Frame.
Variable R : World → World → Prop.
Hypothesis R_refl : ∀ w, R w w.
Hypothesis R_trans : ∀ w1 w2 w3, R w1 w2 → R w2 w3 → R w1 w3.

Lemma frames_ret {A} (a : A) : frames R (mret a).
Proof. intros w. apply R_refl. Qed.

Lemma frames_throw {A} e : frames R (@throw A e).
Proof. intros w. apply R_refl. Qed.

Lemma frames_gets {A} (f : World → A) : frames R (gets f).
Proof. intros w. apply R_refl. Qed.

Lemma frames_modify (f : World → World) : (∀ w, R w (f w)) → frames R (modify f).
Proof. intros H w. apply H. Qed.

Lemma frames_bind {A B} (m : JS A) (k : A → JS B) :
  frames R m → (∀ a, frames R (k a)) → frames R (m ≫= k).
Proof.
  intros Hm Hk w. unfold mbind, JS_bind.
  pose proof (Hm w) as H1. destruct (m w) as [[a|e] w1]; simpl in *; [|exact H1].
  eapply R_trans; [exact H1 | apply Hk].
Qed.

(** Reading the state first: the rest may be judged at that state. *)
Lemma frames_bind_gets {A B} (f : World → A) (k : A → JS B) :
  (∀ w, R w (snd (k (f w) w))) → frames R (gets f ≫= k).
Proof. intros H w. apply H. Qed.

Lemma frames_try_catch {A} (body : JS A) (handler : Error → JS A) :
  frames R body → (∀ e, frames R (handler e)) → frames R (try_catch body handler).
Proof.
  intros Hb Hh w. unfold try_catch.
  pose proof (Hb w) as H1. destruct (body w) as [[a|e] w1]; simpl in *; [exact H1|].
  eapply R_trans; [exact H1 | apply Hh].
Qed.

Lemma frames_unless silent (m : JS unit) : frames R m → frames R (unless silent m).
Proof. intros H. destruct silent; [apply frames_ret | exact H]. Qed.

Lemma frames_dispatch {L} (call : L → JS unit) ls w :
  (∀ l, frames R (call l)) → R w (dispatch call ls w).
Proof.
  intros H. revert w. induction ls as [|l ls IH]; intros w; simpl; [apply R_refl|].
  eapply R_trans; [apply (H l) | apply IH].
Qed.
End Frame.

Lemma interval_handles_app ts us :
  interval_handles (ts ++ us) = interval_handles ts ++ interval_handles us.
Proof.
  induction ts as [|t ts IH]; simpl; [reflexivity|].
  destruct (period t); simpl; congruence.
Qed.

Lemma interval_handles_filter p ts :
  interval_handles (List.filter p ts) `sublist_of` interval_handles ts.
Proof.
  induction ts as [|t ts IH]; simpl; [constructor|].
  destruct (p t); simpl; destruct (period t); auto using sublist_skip, sublist_cons.
Qed.

Lemma interval_handles_map g ts :
  (∀ t, handle (g t) = handle t ∧ period (g t) = period t) →
  interval_handles (map g ts) = interval_handles ts.
Proof.
  intros Hg. induction ts as [|t ts IH]; simpl; [reflexivity|].
  destruct (Hg t) as [-> ->]. destruct (period t); congruence.
Qed.

Lemma respects_refl w : respects w w.
Proof. unfold respects. auto. Qed.

Lemma respects_trans w1 w2 w3 : respects w1 w2 → respects w2 w3 → respects w1 w3.
Proof.
  intros (Hc & Hi & Hs & Hb) (Hc' & Hi' & Hs' & Hb'). repeat split.
  - congruence.
  - congruence.
  - by etrans.
  - intros Ht. rewrite Hb', Hb; auto. rewrite Hb; auto.
Qed.

Lemma respects_console f w : respects w (with_console f w).
Proof. unfold respects. simpl. auto. Qed.

Lemma respects_effects f w : respects w (with_effects f w).
Proof. unfold respects. simpl. auto. Qed.

Lemma respects_cells f w : respects w (with_cells f w).
Proof. unfold respects. simpl. auto. Qed.

Lemma respects_window f w : respects w (with_window f w).
Proof. unfold respects. simpl. auto. Qed.

Lemma respects_loop g w :
  interval_handles (timers (g (loop w))) `sublist_of` interval_handles (timers (loop w)) →
  respects w (with_loop g w).
Proof. intros H. unfold respects. simpl. auto. Qed.

(** Priming is allowed where no baseline exists. *)
Lemma respects_priming v w :
  truthy_opt (sysVersion (watcher w)) = false →
  respects w (with_watcher (set_sysVersion v) w).
Proof. intros H. unfold respects. simpl. repeat split; auto. congruence. Qed.

Create HintDb frames.
#[local] Hint Resolve respects_refl respects_console respects_effects respects_cells
  respects_window respects_priming : frames.
#[local] Hint Extern 1 (respects _ (with_loop _ _)) =>
  apply respects_loop; simpl; reflexivity : frames.

(** One syntax-directed step of a proof that a computation respects the
    Watcher State; leaves are settled from the hint database. *)
Ltac frame_step :=
  first
    [ apply (frames_ret respects respects_refl)
    | apply (frames_throw respects respects_refl)
    | apply (frames_gets respects respects_refl)
    | apply (frames_unless respects respects_refl)
    | apply frames_modify; intros ?; solve [auto with frames]
    | apply (frames_try_catch respects respects_trans); [|intros ?]
    | apply (frames_bind respects respects_trans); [|intros ?]
    | match goal with
      | |- frames _ (if ?b then _ else _) => destruct b eqn:?
      | |- frames _ (match ?x with _ => _ end) => destruct x eqn:?
      end
    | solve [auto with frames] ].

Ltac frame := repeat frame_step.

Lemma setTimeout_respects t delay : frames respects (setTimeout t delay).
Proof.
  intros w. unfold setTimeout, setTimer. simpl. apply respects_loop. simpl.
  rewrite interval_handles_app. simpl. by rewrite app_nil_r.
Qed.

Lemma clearTimer_respects o : frames respects (clearTimer o).
Proof.
  destruct o as [h|]; unfold clearTimer; [|frame].
  apply frames_modify. intros w. apply respects_loop. simpl.
  apply interval_handles_filter.
Qed.

Lemma await_fetch_respects url k : frames respects (await_fetch url k).
Proof.
  intros w. unfold await_fetch. simpl.
  eapply respects_trans; [|apply respects_effects]. auto with frames.
Qed.

Lemma confirm_respects : frames respects confirm.
Proof.
  intros w. unfold confirm. destruct (confirmAnswers (loop w)); simpl; auto with frames.
Qed.

#[local] Hint Resolve setTimeout_respects clearTimer_respects await_fetch_respects
  confirm_respects : frames.

Lemma location_reload_respects : frames respects location_reload.
Proof. unfold location_reload, emit. frame. Qed.

Lemma debounce_respects fn delay : frames respects (debounce fn delay).
Proof. intros w. unfold debounce. simpl. auto with frames. Qed.

#[local] Hint Resolve location_reload_respects debounce_respects : frames.

Lemma call_debounced_respects d : frames respects (call_debounced d).
Proof. unfold call_debounced. frame. Qed.

#[local] Hint Resolve call_debounced_respects : frames.

Lemma showUpdateDialog_respects silent : frames respects (showUpdateDialog silent).
Proof. unfold showUpdateDialog, emit. frame. Qed.

Lemma showDialog_fn_respects silent : frames respects (showDialog_fn silent).
Proof. unfold showDialog_fn, emit, console_log. frame. Qed.

Lemma dialog_answered_respects accept : frames respects (dialog_answered accept).
Proof. unfold dialog_answered, emit. frame. Qed.

Lemma getETag_respects fetch url silent : frames respects (getETag fetch url silent).
Proof. unfold getETag, console_warn. frame. Qed.

#[local] Hint Resolve showUpdateDialog_respects showDialog_fn_respects
  dialog_answered_respects getETag_respects : frames.

Lemma versionUpdateHandler_respects fetch cp silent cb :
  frames respects (versionUpdateHandler fetch cp silent cb).
Proof.
  unfold versionUpdateHandler, get_sysVersion, put_sysVersion, console_log, console_warn, emit.
  apply (frames_try_catch respects respects_trans); [|intros e; frame].
  apply (frames_bind respects respects_trans); [frame|intros newVersion].
  apply frames_bind_gets. intros w.
  destruct (truthy_opt (sysVersion (watcher w))) eqn:Hsv; simpl.
  - destruct (strict_neq _ _); [|apply respects_refl].
    assert (H : frames respects
      (unless silent (modify (with_console
         (λ c, c ++ [ConsoleLog (MsgVersionChanged (sysVersion (watcher w)) newVersion)])));;
       match cb with
       | Some f => modify (with_effects (λ t, t ++ [ECallback f]))
       | None => showUpdateDialog silent
       end)) by frame.
    apply H.
  - by apply respects_priming.
Qed.

Lemma checkError_resume_respects fetch cell cp silent cb :
  frames respects (checkError_resume fetch cell cp silent cb).
Proof.
  unfold checkError_resume, get_sysVersion, put_errorCount, emit. frame.
Qed.

Lemma checkError_fn_respects cell env : frames respects (checkError_fn cell env).
Proof. unfold checkError_fn, get_errorCount, put_errorCount. frame. Qed.

Lemma on_navigation_respects env : frames respects (on_navigation env).
Proof. unfold on_navigation, ignored, call_versionUpdateHandler, console_log. frame. Qed.

#[local] Hint Resolve versionUpdateHandler_respects checkError_resume_respects
  checkError_fn_respects on_navigation_respects : frames.

Lemma on_error_respects l target : frames respects (on_error l target).
Proof.
  destruct l as [cell deb env].
  unfold on_error, get_errorCount, put_errorCount, console_warn. frame.
Qed.

Lemma on_popstate_respects l : frames respects (on_popstate l).
Proof. destruct l as [env]. apply on_navigation_respects. Qed.

Lemma call_history_respects f path : frames respects (call_history f path).
Proof. induction f as [|original IH env]; simpl; frame. Qed.

Lemma run_task_respects t : frames respects (run_task t).
Proof. destruct t; cbn [run_task]; unfold call_versionUpdateHandler; auto with frames. Qed.

Lemma resume_respects fetch k : frames respects (resume fetch k).
Proof. destruct k; cbn [resume]; auto with frames. Qed.

(** ** Invariants along a run *)

Lemma rearm_respects t w : respects w (rearm t w).
Proof.
  unfold rearm. destruct (period t) as [p|]; apply respects_loop; simpl.
  - rewrite interval_handles_map; [reflexivity|].
    intros u. destruct (Pos.eqb (handle u) (handle t)); auto.
  - apply interval_handles_filter.
Qed.

Lemma fire_respects batch w : respects w (fire batch w).
Proof.
  revert w. induction batch as [|t batch IH]; intros w; simpl; [apply respects_refl|].
  destruct (reloaded (loop w) || negb (registered (handle t) w)); [apply IH|].
  eapply respects_trans; [|apply IH].
  eapply respects_trans; [apply rearm_respects | apply run_task_respects].
Qed.

Lemma elapse_respects ms w : respects w (elapse ms w).
Proof.
  revert w. induction ms as [|ms IH]; intros w; simpl; [apply respects_refl|].
  eapply respects_trans; [|apply IH]. unfold tick.
  eapply respects_trans; [|apply fire_respects]. auto with frames.
Qed.

(** Every event but setup and teardown respects the Watcher State. *)
Lemma react_respects e w : is_lifecycle e = false → respects w (react e w).
Proof.
  destruct e as [options| |path|path|path|target|ms|id result|accept]; simpl;
    try discriminate; intros _.
  - apply call_history_respects.
  - apply call_history_respects.
  - eapply respects_trans; [apply respects_window|].
    apply (frames_dispatch respects respects_refl respects_trans), on_popstate_respects.
  - apply (frames_dispatch respects respects_refl respects_trans).
    intros l. apply on_error_respects.
  - apply elapse_respects.
  - destruct (take_pending id w) as [k|]; [|apply respects_refl].
    eapply respects_trans; [|apply resume_respects].
    unfold drop_pending. auto with frames.
  - apply dialog_answered_respects.
Qed.

Lemma one_watcher_respects w w' : one_watcher w → respects w w' → one_watcher w'.
Proof.
  intros (H1 & H2 & H3) (Hc & Hi & Hs & _). unfold one_watcher.
  rewrite Hc, Hi. split; [exact H1|]. split.
  - intros h Hh. apply H2. eapply elem_of_sublist; eauto.
  - apply sublist_length in Hs. lia.
Qed.

Lemma one_watcher_console f w : one_watcher w → one_watcher (with_console f w).
Proof. exact id. Qed.

Lemma interval_handles_cleared h h' ts :
  h' ∈ interval_handles (List.filter (keep_other h) ts) → h' ≠ h.
Proof.
  induction ts as [|t ts IH]; simpl; [by intros ?%elem_of_nil|].
  unfold keep_other at 1. destruct (Pos.eqb_spec (handle t) h) as [Heq|Hne]; simpl; [exact IH|].
  destruct (period t); [|exact IH].
  intros [->|Hin]%elem_of_cons; [exact Hne | by apply IH].
Qed.

Lemma one_watcher_setup options w :
  one_watcher w → one_watcher (exec (setupVersionWatcher options) w).
Proof.
  intros Hw.
  destruct (default true (enabled options)) eqn:Hen.
  - destruct (isInitialized (watcher w)) eqn:Hin.
    + unfold exec. rewrite setupVersionWatcher_again by assumption. simpl.
      destruct (default false (silent options)); [exact Hw | by apply one_watcher_console].
    + destruct Hw as (H1 & H2 & H3). specialize (H1 Hin).
      rewrite H1 in H3. simpl in H3.
      destruct (interval_handles (timers (loop w))) eqn:Hts; [|simpl in H3; lia].
      destruct (ignores options (pathname (window w))) eqn:Hig.
      * destruct (setupVersionWatcher_bypassed options w Hig)
          as (_ & _ & Hct & _ & _ & _ & Hlo & _).
        unfold one_watcher. rewrite Hct, Hlo, H1, Hts. simpl.
        split; [auto|]. split; [by intros h ?%elem_of_nil | lia].
      * destruct (setupVersionWatcher_arms options w Hen Hin Hig) as (Hwa & Hti & _).
        unfold one_watcher. rewrite Hwa, Hti, interval_handles_app, Hts. simpl.
        split; [discriminate|].
        unfold interval_of. destruct (0 <? default 0 (checkInterval options))%Z; simpl.
        -- split; [|lia]. by intros h ->%list_elem_of_singleton.
        -- split; [by intros h ?%elem_of_nil | lia].
  - unfold exec. rewrite setupVersionWatcher_disabled by assumption. simpl.
    destruct (default false (silent options)); [exact Hw | by apply one_watcher_console].
Qed.

(** Teardown leaves no periodic timer behind. *)
Lemma destroy_clears_intervals w :
  one_watcher w →
  interval_handles (timers (loop (exec destroyVersionWatcher w))) = [].
Proof.
  intros (H1 & H2 & H3).
  destruct (destroyVersionWatcher_obs w) as (_ & _ & _ & _ & Hlo & _).
  rewrite Hlo. simpl. destruct (checkTimer (watcher w)) as [h|] eqn:Hct.
  - destruct (interval_handles (List.filter (keep_other h) (timers (loop w))))
      as [|h' hs] eqn:Hf; [reflexivity|].
    assert (Hin : h' ∈ interval_handles (List.filter (keep_other h) (timers (loop w))))
      by (rewrite Hf; left).
    pose proof (interval_handles_cleared _ _ _ Hin) as Hne.
    eapply elem_of_sublist in Hin; [|apply interval_handles_filter].
    apply H2 in Hin. congruence.
  - simpl in H3. destruct (interval_handles (timers (loop w))); [reflexivity|].
    simpl in H3. lia.
Qed.

Lemma one_watcher_destroy w :
  one_watcher w → one_watcher (exec destroyVersionWatcher w).
Proof.
  intros Hw. pose proof (destroy_clears_intervals w Hw) as Hnil.
  destruct (destroyVersionWatcher_obs w) as (_ & Hwa & _).
  unfold one_watcher. rewrite Hwa, Hnil. simpl.
  split; [auto|]. split; [by intros h ?%elem_of_nil | lia].
Qed.

Lemma one_watcher_step w e : one_watcher w → one_watcher (step w e).
Proof.
  intros Hw. unfold step. destruct (reloaded (loop w)); [exact Hw|].
  destruct (is_lifecycle e) eqn:He.
  - destruct e; try discriminate; simpl.
    + by apply one_watcher_setup.
    + by apply one_watcher_destroy.
  - eapply one_watcher_respects; [exact Hw | by apply react_respects].
Qed.

Lemma one_watcher_run es w : one_watcher w → one_watcher (run es w).
Proof.
  revert w. induction es as [|e es IH]; intros w Hw; simpl; [exact Hw|].
  by apply IH, one_watcher_step.
Qed.

Lemma one_watcher_page origin path rich answers :
  one_watcher (page origin path rich answers).
Proof.
  unfold one_watcher. simpl. split; [auto|]. split; [by intros h ?%elem_of_nil | lia].
Qed.

(** A baseline, once there, is there for good: no event moves or clears
    it. *)
Lemma baseline_step w e :
  truthy_opt (sysVersion (watcher w)) = true →
  sysVersion (watcher (step w e)) = sysVersion (watcher w).
Proof.
  intros Hsv. unfold step. destruct (reloaded (loop w)); [reflexivity|].
  destruct (is_lifecycle e) eqn:He.
  - destruct e as [options| | | | | | | |]; try discriminate; simpl.
    + destruct (default true (enabled options)) eqn:Hen.
      * destruct (isInitialized (watcher w)) eqn:Hin.
        -- unfold exec. rewrite setupVersionWatcher_again by assumption. simpl.
           by destruct (default false (silent options)).
        -- destruct (ignores options (pathname (window w))) eqn:Hig.
           ++ by destruct (setupVersionWatcher_bypassed options w Hig) as (_ & H & _).
           ++ destruct (setupVersionWatcher_arms options w Hen Hin Hig) as (H & _).
              rewrite H. reflexivity.
      * unfold exec. rewrite setupVersionWatcher_disabled by assumption. simpl.
        by destruct (default false (silent options)).
    + destruct (destroyVersionWatcher_obs w) as (_ & H & _). rewrite H. reflexivity.
  - by apply (react_respects e w He).
Qed.

Lemma baseline_run es w :
  truthy_opt (sysVersion (watcher w)) = true →
  sysVersion (watcher (run es w)) = sysVersion (watcher w).
Proof.
  revert w. induction es as [|e es IH]; intros w Hsv; simpl; [reflexivity|].
  pose proof (baseline_step w e Hsv) as H1.
  rewrite IH; [exact H1|]. by rewrite H1.
Qed.

(** ** Before a baseline is stored *)

(** A syntax-directed proof that a computation frames a relation, given its
    reflexivity and transitivity and a tactic for the leaves. *)
Ltac frame_with Hrefl Htrans leaf :=
  repeat first
    [ apply (frames_ret _ Hrefl)
    | apply (frames_throw _ Hrefl)
    | apply (frames_gets _ Hrefl)
    | apply (frames_unless _ Hrefl)
    | apply frames_modify; intros ?; solve [leaf]
    | apply (frames_try_catch _ Htrans); [|intros ?]
    | apply (frames_bind _ Htrans); [|intros ?]
    | match goal with
      | |- frames _ (if ?b then _ else _) => destruct b eqn:?
      | |- frames _ (match ?x with _ => _ end) => destruct x eqn:?
      end
    | solve [leaf] ].

Lemma keeps_unprimed_refl w : keeps_unprimed w w.
Proof. exact id. Qed.

Lemma keeps_unprimed_trans w1 w2 w3 :
  keeps_unprimed w1 w2 → keeps_unprimed w2 w3 → keeps_unprimed w1 w3.
Proof. unfold keeps_unprimed. auto. Qed.

Lemma keeps_unprimed_console f w : keeps_unprimed w (with_console f w).
Proof. exact id. Qed.

Lemma keeps_unprimed_cells f w : keeps_unprimed w (with_cells f w).
Proof. exact id. Qed.

Lemma keeps_unprimed_pathname path w : keeps_unprimed w (with_window (set_pathname path) w).
Proof. exact id. Qed.

Create HintDb unprimed.
#[local] Hint Resolve keeps_unprimed_console keeps_unprimed_cells keeps_unprimed_pathname
  : unprimed.

Lemma setTimeout_unprimed t delay :
  is_dialog_task t = false → frames keeps_unprimed (setTimeout t delay).
Proof.
  intros Ht w (Hsv & He & Hts & Hel & Ho & Hr). unfold unprimed. simpl.
  repeat split; auto. apply Forall_app. auto.
Qed.

Lemma clearTimer_unprimed o : frames keeps_unprimed (clearTimer o).
Proof.
  destruct o as [h|]; intros w; [|exact id].
  intros (Hsv & He & Hts & Hel & Ho & Hr). unfold unprimed. simpl.
  repeat split; auto.
  apply List.Forall_forall. intros t [Hin _]%List.filter_In.
  by eapply List.Forall_forall in Hts.
Qed.

Lemma await_fetch_unprimed url k : frames keeps_unprimed (await_fetch url k).
Proof.
  intros w (Hsv & He & Hts & Hel & Ho & Hr). unfold unprimed. simpl.
  repeat split; auto. apply Forall_app. auto.
Qed.

#[local] Hint Resolve setTimeout_unprimed clearTimer_unprimed await_fetch_unprimed : unprimed.

Ltac unprimed_leaf :=
  first [ solve [auto with unprimed] | contradiction | congruence ].

Ltac unprimeds := frame_with keeps_unprimed_refl keeps_unprimed_trans unprimed_leaf.

Lemma call_debounced_unprimed d :
  is_dialog_task (d_fn d) = false → frames keeps_unprimed (call_debounced d).
Proof. intros Hd. unfold call_debounced. unprimeds. Qed.

#[local] Hint Resolve call_debounced_unprimed : unprimed.

Lemma on_navigation_unprimed env : frames keeps_unprimed (on_navigation env).
Proof. unfold on_navigation, ignored, call_versionUpdateHandler, console_log. unprimeds. Qed.

Lemma on_error_unprimed l target :
  is_dialog_task (debounced_task l) = false → frames keeps_unprimed (on_error l target).
Proof.
  destruct l as [cell deb env]. simpl. intros Hd.
  unfold on_error, get_errorCount, put_errorCount, console_warn. unprimeds.
Qed.

Lemma call_history_unprimed f path : frames keeps_unprimed (call_history f path).
Proof.
  induction f as [|original IH env]; cbn [call_history]; [unprimeds|].
  apply (frames_bind _ keeps_unprimed_trans); [exact IH | intros ?; apply on_navigation_unprimed].
Qed.

Lemma run_task_unprimed t :
  is_dialog_task t = false → frames keeps_unprimed (run_task t).
Proof.
  destruct t as [env|cell env|silent]; cbn [run_task is_dialog_task]; [| |discriminate];
    intros _; unfold call_versionUpdateHandler, checkError_fn, get_errorCount,
      put_errorCount; unprimeds.
Qed.

Lemma rearm_unprimed t w : keeps_unprimed w (rearm t w).
Proof.
  intros (Hsv & He & Hts & Hel & Ho & Hr). unfold unprimed, rearm.
  destruct (period t) as [p|]; simpl; repeat split; auto.
  - apply List.Forall_forall. intros u (v & <- & Hin)%List.in_map_iff.
    eapply List.Forall_forall in Hts; [|exact Hin].
    by destruct (Pos.eqb (handle v) (handle t)).
  - apply List.Forall_forall. intros u [Hin _]%List.filter_In.
    by eapply List.Forall_forall in Hts.
Qed.

Lemma fire_unprimed batch w :
  Forall (λ t, is_dialog_task (task t) = false) batch → keeps_unprimed w (fire batch w).
Proof.
  intros Hb. revert w. induction Hb as [|t batch Ht _ IH]; intros w; simpl; [exact id|].
  destruct (reloaded (loop w) || negb (registered (handle t) w)); [apply IH|].
  eapply keeps_unprimed_trans; [|apply IH].
  eapply keeps_unprimed_trans; [apply rearm_unprimed | by apply run_task_unprimed].
Qed.

Lemma elapse_unprimed ms w : keeps_unprimed w (elapse ms w).
Proof.
  revert w. induction ms as [|ms IH]; intros w; simpl; [exact id|].
  eapply keeps_unprimed_trans; [|apply IH]. unfold tick. intros Hw.
  apply fire_unprimed.
  - destruct Hw as (_ & _ & Hts & _). simpl.
    apply List.Forall_forall. intros t [Hin _]%List.filter_In.
    by eapply List.Forall_forall in Hts.
  - exact Hw.
Qed.

(** Listeners only add to what [unprimed] speaks of, so one that is
    harmless when the dispatch starts is harmless when its turn comes. *)
Lemma dispatch_unprimed {L} (ok : L → Prop) (call : L → JS unit) ls w :
  (∀ l, ok l → frames keeps_unprimed (call l)) →
  Forall ok ls → keeps_unprimed w (dispatch call ls w).
Proof.
  intros Hcall Hls. revert w. induction Hls as [|l ls Hl _ IH]; intros w; simpl; [exact id|].
  eapply keeps_unprimed_trans; [by apply (Hcall l) | apply IH].
Qed.

(** An evaluation by [versionUpdateHandler] that finds no baseline adopts
    the probed value and does nothing else but log. *)
Lemma versionUpdateHandler_adopts fetch cp silent cb w :
  truthy_opt (sysVersion (watcher w)) = false →
  let w' := exec (versionUpdateHandler fetch cp silent cb) w in
  sysVersion (watcher w') = Some (probe_result (fetch cp)) ∧
  window w' = window w ∧ loop w' = loop w ∧ effects w' = effects w.
Proof.
  intros Hsv. unfold versionUpdateHandler. js_unfold. rewrite getETag_eval.
  destruct w as [[sv ct ini] wi cs lo co ef]; simpl in *.
  destruct (probe_log silent (fetch cp)) as [|entry entries]; simpl;
    rewrite Hsv; simpl; auto.
Qed.

(** An evaluation by [checkError] that finds no baseline only zeroes its
    tally and logs. *)
Lemma checkError_resume_idle fetch cell cp silent cb w :
  truthy_opt (sysVersion (watcher w)) = false →
  let w' := exec (checkError_resume fetch cell cp silent cb) w in
  watcher w' = watcher w ∧ window w' = window w ∧ loop w' = loop w ∧
  effects w' = effects w.
Proof.
  intros Hsv. unfold checkError_resume. js_unfold. rewrite getETag_eval.
  destruct w as [[sv ct ini] wi cs lo co ef]; simpl in *.
  destruct (probe_log silent (fetch cp)) as [|entry entries]; simpl;
    rewrite Hsv; simpl; auto.
Qed.

Lemma setup_unprimed options w :
  unprimed w → unprimed (exec (setupVersionWatcher options) w).
Proof.
  intros Hw.
  destruct (default true (enabled options)) eqn:Hen.
  - destruct (isInitialized (watcher w)) eqn:Hin.
    + unfold exec. rewrite setupVersionWatcher_again by assumption. simpl.
      by destruct (default false (silent options)).
    + destruct (ignores options (pathname (window w))) eqn:Hig.
      * destruct (setupVersionWatcher_bypassed options w Hig)
          as (_ & Hsv & _ & _ & Hwi & _ & Hlo & Hef).
        unfold unprimed. rewrite Hwi, Hlo, Hef, Hsv. exact Hw.
      * destruct (setupVersionWatcher_arms options w Hen Hin Hig)
          as (_ & Hti & _ & _ & _ & _ & _ & Hel & _ & Hef).
        destruct (setupVersionWatcher_keeps options w)
          as (_ & _ & _ & _ & _ & Hod & Hre & Hsv).
        simpl in Hod, Hre, Hsv.
        destruct Hw as (Hsv0 & He & Hts & Hel0 & Ho & Hr).
        unfold unprimed. rewrite Hti, Hel, Hef, Hod, Hre, Hsv.
        repeat split; auto; apply Forall_app; split; auto.
        all: try (unfold interval_of; destruct (0 <? default 0 (checkInterval options))%Z).
        all: repeat constructor.
  - unfold exec. rewrite setupVersionWatcher_disabled by assumption. simpl.
    by destruct (default false (silent options)).
Qed.

Lemma destroy_unprimed w : unprimed w → unprimed (exec destroyVersionWatcher w).
Proof.
  intros (Hsv & He & Hts & Hel & Ho & Hr).
  destruct (destroyVersionWatcher_obs w) as (_ & Hwa & Hwi & _ & Hlo & _ & Hef).
  unfold unprimed. rewrite Hwa, Hwi, Hlo, Hef. simpl.
  repeat split; auto.
  destruct (checkTimer (watcher w)) as [h|]; [|exact Hts].
  apply List.Forall_forall. intros u [Hin _]%List.filter_In.
  by eapply List.Forall_forall in Hts.
Qed.

(** One event on a page with no baseline: nothing is notified, whatever
    the event, although it may store a baseline. *)
Lemma step_unprimed w e :
  unprimed w →
  truthy_opt (sysVersion (watcher (step w e))) = true ∨ unprimed (step w e).
Proof.
  intros Hw. pose proof Hw as (Hsv & He & Hts & Hel & Ho & Hr).
  unfold step. rewrite Hr.
  destruct e as [options| |path|path|path|target|ms|fid result|accept]; simpl.
  - right. by apply setup_unprimed.
  - right. by apply destroy_unprimed.
  - right. by apply call_history_unprimed.
  - right. by apply call_history_unprimed.
  - right.
    apply (dispatch_unprimed (λ _, True) on_popstate); [| |exact Hw].
    + intros [env] _. apply on_navigation_unprimed.
    + apply List.Forall_forall. auto.
  - right.
    apply (dispatch_unprimed (λ l, is_dialog_task (debounced_task l) = false)
             (λ l, on_error l target)); [|exact Hel|exact Hw].
    intros l. apply on_error_unprimed.
  - right. by apply elapse_unprimed.
  - destruct (take_pending fid w) as [[env|cell env]|]; [| |by right]; cbn [resume].
    + destruct (versionUpdateHandler_adopts (λ _, result) (e_checkPath env) (e_silent env)
                  (e_onUpdateDetected env) (drop_pending fid w) Hsv)
        as (Hsv' & Hwi & Hlo & Hef).
      destruct (truthy_opt (sysVersion (watcher (exec _ (drop_pending fid w))))) eqn:Ht;
        [by left|right].
      unfold unprimed. rewrite Ht, Hwi, Hlo, Hef. simpl. repeat split; auto.
    + right.
      destruct (checkError_resume_idle (λ _, result) cell (e_checkPath env) (e_silent env)
                  (e_onUpdateDetected env) (drop_pending fid w) Hsv)
        as (Hwa & Hwi & Hlo & Hef).
      unfold unprimed. rewrite Hwa, Hwi, Hlo, Hef. simpl. repeat split; auto.
  - right. unfold dialog_answered. js_unfold. rewrite Ho. exact Hw.
Qed.

(** On a page loaded fresh, as long as no baseline is stored nothing has
    been notified. *)
Lemma run_unprimed es w :
  unprimed w →
  truthy_opt (sysVersion (watcher (run es w))) = false → unprimed (run es w).
Proof.
  revert w. induction es as [|e es IH]; intros w Hw Hsv; simpl in *; [exact Hw|].
  destruct (step_unprimed w e Hw) as [Ht|Hu]; [|by apply IH].
  rewrite baseline_run in Hsv by exact Ht. congruence.
Qed.

Lemma page_unprimed origin path rich answers : unprimed (page origin path rich answers).
Proof. unfold unprimed. simpl. repeat split; auto. Qed.

Lemma unprimed_quiet w : unprimed w → notifications w = [].
Proof.
  intros (_ & He & _). unfold notifications.
  induction He as [|e l Hf _ IH]; simpl; [reflexivity|].
  destruct e; simpl in *; try discriminate; exact IH.
Qed.

(** * The specification's properties *)

(** ** Divergence on the two paths *)

(** C1. The two evaluation paths do not apply one rule.  With a baseline
    stored and a probe that failed (empty fingerprint), the divergence rule
    does not hold; the asset-error path accordingly stays quiet, but
    [versionUpdateHandler], which lacks the test on the probed value, fires
    a notification. *)
Theorem failed_probe_notifies_on_timer_and_navigation
    (fetch : string → FetchResult) (cell : nat) (cp : string) (silent : bool)
    (cb : option UpdateCallback) (a : string) (w : World) :
  sysVersion (watcher w) = Some a →
  a ≠ "" →
  probe_result (fetch cp) = "" →
  ¬ diverges (sysVersion (watcher w)) (probe_result (fetch cp)) ∧
  notifications (exec (checkError_resume fetch cell cp silent cb) w) = notifications w ∧
  notifications (exec (versionUpdateHandler fetch cp silent cb) w) =
    notifications w ++ [notification_of silent cb].
Proof.
  intros Hsv Ha Hv. split; [|split].
  - intros (a' & _ & _ & Hd & _). congruence.
  - destruct (checkError_resume_obs fetch cell cp silent cb w) as (_ & _ & _ & _ & He).
    apply notifications_app in He. rewrite He, Hv, Hsv. simpl.
    rewrite andb_false_r. simpl. apply app_nil_r.
  - apply versionUpdateHandler_notifies_iff. exists a. rewrite Hv. auto.
Qed.

Lemma failed_probe_notifies_witness :
  let w := drop_pending 1 (run (with_baseline_v1 ++ [CallPushState "/next"]) example_page) in
  notifications
    (exec (versionUpdateHandler (λ _, http_error 503) "https://app.example/" false None) w) =
  notifications w ++ [EShowUpdateDialog false].
Proof.
  intro w.
  refine (proj2 (proj2 (failed_probe_notifies_on_timer_and_navigation
    (λ _, http_error 503) 0 "https://app.example/" false None "v1" w _ _ _))).
  - vm_compute. reflexivity.
  - discriminate.
  - reflexivity.
Defined.

(** ** Teardown *)

(** C2, amended.  [destroyVersionWatcher] cancels the periodic timer it
    holds (on a page reached from a fresh load no periodic timer is left),
    forgets the handle and clears the initialized flag, and puts back the
    captured [pushState] and [replaceState] (where none was captured the
    current ones stay); the baseline [sysVersion] is the one part of the
    Watcher State it keeps.  A later setup, enabled and not bypassed, arms
    again: flag raised, timer as configured, a probe issued. *)
Theorem destroyVersionWatcher_resets_all_but_the_baseline (w : World) :
  let w' := exec destroyVersionWatcher w in
  watcher w' = {| sysVersion := sysVersion (watcher w); checkTimer := None;
                  isInitialized := false |} ∧
  match checkTimer (watcher w) with
  | Some h => registered h w' = false
  | None => timers (loop w') = timers (loop w)
  end ∧
  (one_watcher w → interval_handles (timers (loop w')) = []) ∧
  pushState (window w') = default (pushState (window w)) (ORIGINAL_PUSH_STATE (window w)) ∧
  replaceState (window w') =
    default (replaceState (window w)) (ORIGINAL_REPLACE_STATE (window w)) ∧
  ∀ options,
    default true (enabled options) = true →
    ignores options (pathname (window w)) = false →
    let w'' := exec (setupVersionWatcher options) w' in
    isInitialized (watcher w'') = true ∧
    timers (loop w'') = timers (loop w') ++ interval_of options w' ∧
    effects w'' = effects w ++
      [EFetch (nextFetch (loop w)) (e_checkPath (env_of options (origin (window w))))].
Proof.
  intros w'.
  destruct (destroyVersionWatcher_obs w) as (_ & Hwa & Hwi & Hce & Hlo & _ & Hef).
  fold w' in Hwa, Hwi, Hce, Hlo, Hef.
  split; [exact Hwa|]. split; [|split; [|split; [|split]]].
  - unfold registered. rewrite Hlo.
    destruct (checkTimer (watcher w)) as [h|]; simpl; [apply registered_cleared | reflexivity].
  - apply destroy_clears_intervals.
  - rewrite Hwi. reflexivity.
  - rewrite Hwi. reflexivity.
  - intros options Hen Hig w''.
    assert (Hin : isInitialized (watcher w') = false) by (rewrite Hwa; reflexivity).
    assert (Hig' : ignores options (pathname (window w')) = false)
      by (rewrite Hwi; exact Hig).
    destruct (setupVersionWatcher_arms options w' Hen Hin Hig')
      as (Ha & Ht & _ & _ & _ & _ & _ & _ & _ & He).
    fold w'' in Ha, Ht, He.
    rewrite Ha, Ht, He, Hef, Hlo, Hwi. auto.
Qed.

Lemma destroyVersionWatcher_witness :
  let w := run [CallSetup {| enabled := None; checkInterval := Some 30000%Z;
                             checkPath := None; silent := None;
                             onUpdateDetected := None; ignorePaths := None |};
                FetchSettles 0 (etag "v1")] example_page in
  let w' := exec destroyVersionWatcher w in
  let w'' := exec (setupVersionWatcher noOptions) w' in
  isInitialized (watcher w'') = true ∧
  timers (loop w'') = timers (loop w') ++ interval_of noOptions w' ∧
  effects w'' = effects w ++
    [EFetch (nextFetch (loop w)) (e_checkPath (env_of noOptions (origin (window w))))].
Proof.
  intros w.
  exact (proj2 (proj2 (proj2 (proj2 (proj2
           (destroyVersionWatcher_resets_all_but_the_baseline w)))))
           noOptions eq_refl eq_refl).
Defined.

(** C2, as stated, fails: after teardown the Watcher State is not the
    initial one, the baseline "v1" is still stored. *)
Lemma teardown_keeps_the_baseline :
  let w := run (with_baseline_v1 ++ [CallDestroy]) example_page in
  sysVersion (watcher w) = Some "v1" ∧
  watcher w ≠ watcher example_page.
Proof. vm_compute. split; [reflexivity | discriminate]. Qed.

(** ** The first evaluation *)

(** C3, amended.  On a freshly loaded page, whatever has happened so far,
    while no baseline is stored (none, or the empty string) nothing has been
    notified, and an evaluation by [versionUpdateHandler] (setup's own probe,
    the timer's, a navigation's) whose request settles then adopts the
    probed fingerprint as baseline and fires nothing; so does setup's own
    probe when it is answered right after a setup that is enabled and not
    bypassed.  Such an evaluation that finds a non-empty baseline keeps it,
    stays quiet on an equal probe and fires one notification on a differing
    non-empty one.  The evaluation of the asset-error path never stores or
    changes the baseline, and fires nothing while none is stored.  Probes
    "v1", "v1", "v2", answered in the order issued, give no, no, yes; when a
    navigation's probe "v2" is answered before setup's own "v1", it is the
    navigation's that is adopted and setup's own that notifies. *)
Theorem first_evaluate_primes_then_compares :
  (∀ origin path rich answers options r,
     default true (enabled options) = true →
     ignores options path = false →
     let w0 := step (page origin path rich answers) (CallSetup options) in
     let w1 := step w0 (FetchSettles 0 r) in
     List.length (pending (loop w0)) = 1 ∧
     sysVersion (watcher w1) = Some (probe_result r) ∧
     notifications w1 = []) ∧
  (∀ origin path rich answers es,
     let p := run es (page origin path rich answers) in
     truthy_opt (sysVersion (watcher p)) = false →
     notifications p = [] ∧
     reloaded (loop p) = false ∧
     (∀ fid r env,
        take_pending fid p = Some (KVersionUpdateHandler env) →
        let p' := step p (FetchSettles fid r) in
        sysVersion (watcher p') = Some (probe_result r) ∧ notifications p' = []) ∧
     (∀ fid r cell env,
        take_pending fid p = Some (KCheckError cell env) →
        let p' := step p (FetchSettles fid r) in
        sysVersion (watcher p') = sysVersion (watcher p) ∧ notifications p' = [])) ∧
  (∀ fetch cp silent cb w,
     truthy_opt (sysVersion (watcher w)) = false →
     let w' := exec (versionUpdateHandler fetch cp silent cb) w in
     sysVersion (watcher w') = Some (probe_result (fetch cp)) ∧
     notifications w' = notifications w) ∧
  (∀ fetch cp silent cb a w,
     sysVersion (watcher w) = Some a → a ≠ "" →
     probe_result (fetch cp) ≠ "" →
     let w' := exec (versionUpdateHandler fetch cp silent cb) w in
     sysVersion (watcher w') = Some a ∧
     notifications w' = notifications w ++
       (if decide (probe_result (fetch cp) = a) then [] else [notification_of silent cb])) ∧
  (∀ fetch cell cp silent cb w,
     let w' := exec (checkError_resume fetch cell cp silent cb) w in
     sysVersion (watcher w') = sysVersion (watcher w) ∧
     (truthy_opt (sysVersion (watcher w)) = false → notifications w' = notifications w)) ∧
  (let w1 := run with_baseline_v1 example_page in
   let w2 := run [CallPushState "/a"; FetchSettles 1 (etag "v1")] w1 in
   let w3 := run [CallPushState "/b"; FetchSettles 2 (etag "v2")] w2 in
   [notified example_page w1; notified w1 w2; notified w2 w3] = [false; false; true]) ∧
  (let w0 := run [CallSetup noOptions; CallPushState "/a"] example_page in
   let w1 := step w0 (FetchSettles 1 (etag "v2")) in
   let w2 := step w1 (FetchSettles 0 (etag "v1")) in
   sysVersion (watcher w1) = Some "v2" ∧ sysVersion (watcher w2) = Some "v2" ∧
   [notified w0 w1; notified w1 w2] = [false; true]).
Proof.
  split; [|split; [|split; [|split; [|split; [|split]]]]].
  - intros origin path rich answers [en ci cp si cb ig] r Hen Hig.
    unfold ignores in Hig. simpl in Hen, Hig.
    unfold step, react, page; simpl.
    unfold setupVersionWatcher, ignored. js_unfold. simpl. rewrite Hen. simpl.
    destruct (default false si), ig as [re|]; simpl; rewrite ?Hig; simpl;
      destruct (0 <? default 0 ci)%Z; simpl;
      unfold take_pending; simpl;
      unfold versionUpdateHandler; js_unfold; rewrite getETag_eval;
      unfold notifications; simpl;
      destruct (probe_log _ r); simpl; auto.
  - intros origin path rich answers es p Hsv.
    assert (Hu : unprimed p) by (apply run_unprimed; [apply page_unprimed | exact Hsv]).
    clearbody p. pose proof (unprimed_quiet p Hu) as Hq.
    destruct Hu as (_ & _ & _ & _ & _ & Hr).
    split; [exact Hq|]. split; [exact Hr|]. split.
    + intros fid r env Hk. unfold step. rewrite Hr. cbn [react]. rewrite Hk. cbn [resume].
      destruct (versionUpdateHandler_adopts (λ _, r) (e_checkPath env) (e_silent env)
                  (e_onUpdateDetected env) (drop_pending fid p) Hsv)
        as (Hsv' & _ & _ & Hef).
      split; [exact Hsv'|]. unfold notifications in *. rewrite Hef. exact Hq.
    + intros fid r cell env Hk. unfold step. rewrite Hr. cbn [react]. rewrite Hk. cbn [resume].
      destruct (checkError_resume_idle (λ _, r) cell (e_checkPath env) (e_silent env)
                  (e_onUpdateDetected env) (drop_pending fid p) Hsv)
        as (Hwa & _ & _ & Hef).
      split; [by rewrite Hwa|]. unfold notifications in *. rewrite Hef. exact Hq.
  - intros fetch cp silent cb w Hsv w'.
    destruct (versionUpdateHandler_obs fetch cp silent cb w) as (_ & Hw & _ & _ & He).
    fold w' in Hw, He. rewrite Hsv in Hw, He. simpl in He.
    rewrite Hw. split; [reflexivity|].
    apply notifications_app in He. rewrite He. apply app_nil_r.
  - intros fetch cp silent cb a w Hsv Ha _ w'.
    destruct (versionUpdateHandler_obs fetch cp silent cb w) as (_ & Hw & _ & _ & He).
    fold w' in Hw, He. rewrite Hsv in Hw, He.
    apply truthy_spec in Ha. simpl in Hw, He. rewrite Ha in Hw, He. simpl in He.
    rewrite Hw. split; [exact Hsv|].
    apply notifications_app in He. rewrite He. f_equal.
    destruct (String.eqb_spec a (probe_result (fetch cp))) as [Heq|Hne]; simpl;
      case_decide; try congruence; by destruct cb.
  - intros fetch cell cp silent cb w w'.
    destruct (checkError_resume_obs fetch cell cp silent cb w) as (_ & Hw & _ & _ & He).
    fold w' in Hw, He. rewrite Hw. split; [reflexivity|].
    intros Hsv. rewrite Hsv in He. simpl in He.
    apply notifications_app in He. rewrite He. apply app_nil_r.
  - vm_compute. reflexivity.
  - vm_compute. auto.
Qed.

Lemma first_evaluate_primes_witness :
  let p := run [CallSetup noOptions; CallPushState "/a"] example_page in
  let p' := step p (FetchSettles 1 (etag "v2")) in
  sysVersion (watcher p') = Some "v2" ∧ notifications p' = [].
Proof.
  intros p.
  refine (proj1 (proj2 (proj2
    (proj1 (proj2 first_evaluate_primes_then_compares)
       "https://app.example" "/" false [] [CallSetup noOptions; CallPushState "/a"] _)))
    1 (etag "v2") (env_of noOptions "https://app.example") _).
  - vm_compute. reflexivity.
  - vm_compute. reflexivity.
Defined.

(** C3, as stated, fails: the baseline outlives [destroyVersionWatcher], so
    the first evaluation after a second, non-bypassed setup meets the old
    baseline "v1"; with the server now at "v2" it notifies and does not
    adopt "v2". *)
Lemma first_evaluate_after_second_setup_notifies :
  let w0 := run (with_baseline_v1 ++ [CallDestroy; CallSetup noOptions]) example_page in
  let w1 := step w0 (FetchSettles 1 (etag "v2")) in
  List.length (pending (loop w0)) = 1 ∧
  sysVersion (watcher w1) ≠ Some "v2" ∧
  notifications w0 = [] ∧
  notifications w1 ≠ [].
Proof. vm_compute. repeat split; discriminate. Qed.

(** ** Asset failures of another origin *)

(** C4. The listener's test for "same origin" is a test on the text of the
    URL: it begins with [location.origin].  A script served from another
    port of the page's host passes it although its origin is not the
    page's: on the example page each such failure raises the tally, and two
    of them make the correlator probe and, the server being at "v2",
    notify. *)
Theorem failure_at_another_origin_is_counted :
  let foreign := "https://app.example:8443/assets/app.js" in
  let w := run with_baseline_v1 example_page in
  let w2 := run [ErrorEvent (script foreign); ErrorEvent (script foreign)] w in
  let w3 := run [Elapse 1000; FetchSettles 1 (etag "v2")] w2 in
  same_origin foreign (origin (window w)) = false ∧
  counted (origin (window w)) (script foreign) = true ∧
  errorCount (cells w) = [0] ∧
  errorCount (cells w2) = [2] ∧
  List.length (probes w3) = S (List.length (probes w)) ∧
  notifications w3 = [EShowUpdateDialog false].
Proof. vm_compute. auto 10. Qed.

(** ** Bypass on an ignored path *)

(** C5. When [ignorePaths] matches the path the page is on, setup returns
    before arming anything: the timer queue, [history.pushState] and
    [replaceState], the [popstate] and [error] listeners, the requests in
    flight and the effect log are those of before (only the initialized flag
    and the console may change).  On a freshly loaded page, with the watcher
    not switched off, this holds for the rest of the load: whatever happens
    next short of a teardown (navigations, asset failures, time passing,
    further setup calls), no probe is issued, no timer armed, no listener
    or hook installed, nothing notified. *)
Theorem setup_on_ignored_path_is_a_full_bypass
    (options : VersionWatcherOptions) (origin path : string) (rich : bool)
    (answers : list bool) (es : list Event) (w : World) :
  ignores options path = true →
  pathname (window w) = path →
  default true (enabled options) = true →
  forallb (λ e, negb (is_destroy e)) es = true →
  let w' := exec (setupVersionWatcher options) w in
  let p' := run (CallSetup options :: es) (page origin path rich answers) in
  (timers (loop w') = timers (loop w) ∧
   checkTimer (watcher w') = checkTimer (watcher w) ∧
   pushState (window w') = pushState (window w) ∧
   replaceState (window w') = replaceState (window w) ∧
   popstateListeners (window w') = popstateListeners (window w) ∧
   errorListeners (window w') = errorListeners (window w) ∧
   pending (loop w') = pending (loop w) ∧
   probes w' = probes w) ∧
  (probes p' = [] ∧ notifications p' = [] ∧
   timers (loop p') = [] ∧ pending (loop p') = [] ∧
   pushState (window p') = NativeHistoryFn ∧
   replaceState (window p') = NativeHistoryFn ∧
   popstateListeners (window p') = [] ∧
   errorListeners (window p') = []).
Proof.
  intros Hig Hpath Hen Hes w' p'. split.
  - rewrite <- Hpath in Hig.
    destruct (setupVersionWatcher_bypassed options w Hig)
      as (_ & _ & Hct & _ & Hwi & _ & Hlo & Hef).
    fold w' in Hct, Hwi, Hlo, Hef. unfold probes.
    rewrite Hct, Hwi, Hlo, Hef. auto 10.
  - assert (Hinert : inert p').
    { unfold p'. simpl. apply inert_run; [|exact Hes].
      unfold step. simpl.
      destruct (setupVersionWatcher_bypassed options (page origin path rich answers) Hig)
        as (_ & _ & Hct & Hin & Hwi & _ & Hlo & Hef).
      unfold inert. rewrite Hct, Hin, Hwi, Hlo, Hef, Hen. simpl. auto 12. }
    destruct Hinert as (_ & _ & Ht & Hp & Hpl & Hel & Hps & Hrs & _ & Hef).
    unfold probes, notifications. rewrite Hef. simpl. auto 10.
Qed.

Lemma setup_on_ignored_path_witness :
  let options := {| enabled := None; checkInterval := Some 30000%Z;
                    checkPath := None; silent := None; onUpdateDetected := None;
                    ignorePaths := Some (λ p, String.prefix "/login" p) |} in
  let es := [CallPushState "/home"; Popstate "/login";
             ErrorEvent (script "https://app.example/app.js");
             ErrorEvent (script "https://app.example/app.js");
             Elapse 3000; CallSetup noOptions] in
  let p' := run (CallSetup options :: es) (page "https://app.example" "/login" false []) in
  probes p' = [] ∧ notifications p' = [] ∧
  timers (loop p') = [] ∧ pending (loop p') = [] ∧
  pushState (window p') = NativeHistoryFn ∧
  replaceState (window p') = NativeHistoryFn ∧
  popstateListeners (window p') = [] ∧
  errorListeners (window p') = [].
Proof.
  intros options es.
  exact (proj2 (setup_on_ignored_path_is_a_full_bypass options
                  "https://app.example" "/login" false [] es
                  (page "https://app.example" "/login" false [])
                  eq_refl eq_refl eq_refl eq_refl)).
Defined.

(** ** The probe *)

(** C6. For every URL and every way its request can settle, [getETag]
    completes normally, never with an exception.  A rejected request and a
    response outside 200..299 both give the empty string and one warning,
    withheld when [silent]; a successful response gives the [ETag] header,
    else the [Last-Modified] header, else the empty string, and writes
    nothing.  Nothing but the console changes. *)
Theorem getETag_never_throws (fetch : string → FetchResult) (url : string)
    (silent : bool) (w : World) :
  let res := getETag fetch url silent w in
  fst res = Normal (probe_result (fetch url)) ∧
  console (snd res) = console w ++ probe_log silent (fetch url) ∧
  with_console (λ _, console w) (snd res) = w.
Proof.
  simpl. rewrite getETag_eval. simpl. split; [reflexivity|].
  destruct w as [wa wi cs lo co ef].
  destruct (probe_log silent (fetch url)); simpl; rewrite ?app_nil_r; auto.
Qed.

(** ** Setup twice *)

(** C7. After a setup that was not switched off, a second setup (again not
    switched off, options otherwise arbitrary) completes normally at the
    guard: it writes the warning, unless [silent], and the page is otherwise
    exactly the one the first call left, with the same timers, listeners,
    hooks and requests in flight.  And however setup and teardown are called
    on a loaded page, among whatever else happens, there is one Watcher
    State with at most one periodic timer, the one [checkTimer] holds. *)
Theorem setup_twice_is_idempotent (o1 o2 : VersionWatcherOptions) (w : World)
    (origin path : string) (rich : bool) (answers : list bool) (es : list Event) :
  default true (enabled o1) = true →
  default true (enabled o2) = true →
  let w1 := exec (setupVersionWatcher o1) w in
  let w2 := exec (setupVersionWatcher o2) w1 in
  let p := run es (page origin path rich answers) in
  (fst (setupVersionWatcher o2 w1) = Normal tt ∧
   watcher w2 = watcher w1 ∧ window w2 = window w1 ∧ cells w2 = cells w1 ∧
   loop w2 = loop w1 ∧ effects w2 = effects w1 ∧
   console w2 = console w1 ++
     (if default false (silent o2) then [] else [ConsoleWarn MsgAlreadyRegistered])) ∧
  (one_watcher p ∧ (List.length (interval_handles (timers (loop p))) ≤ 1)%nat).
Proof.
  intros H1 H2 w1 w2 p. split.
  - pose proof (setupVersionWatcher_initializes o1 w H1) as Hin. fold w1 in Hin.
    unfold w2, exec. rewrite (setupVersionWatcher_again o2 w1 H2 Hin). simpl.
    destruct (default false (silent o2)); simpl; rewrite ?app_nil_r; auto 10.
  - assert (Hp : one_watcher p) by apply one_watcher_run, one_watcher_page.
    split; [exact Hp|]. destruct Hp as (_ & _ & Hlen).
    destruct (truthy_handle _) in Hlen; lia.
Qed.

Lemma setup_twice_witness :
  let w1 := exec (setupVersionWatcher noOptions) example_page in
  let w2 := exec (setupVersionWatcher noOptions) w1 in
  fst (setupVersionWatcher noOptions w1) = Normal tt ∧
  watcher w2 = watcher w1 ∧ window w2 = window w1 ∧ cells w2 = cells w1 ∧
  loop w2 = loop w1 ∧ effects w2 = effects w1 ∧
  console w2 = console w1 ++ [ConsoleWarn MsgAlreadyRegistered].
Proof.
  exact (proj1 (setup_twice_is_idempotent noOptions noOptions example_page
                  "https://app.example" "/" false [] [] eq_refl eq_refl)).
Defined.

(** ** The baseline is never advanced *)

(** C8. An evaluation that notifies, on either path, leaves the whole
    Watcher State as it found it: the baseline is not moved to the probed
    fingerprint.  Hence, with baseline [a] stored and the server answering
    a different, non-empty fingerprint, every evaluation of any series
    notifies once more and the baseline still is [a] at the end.  Indeed no
    event at all (navigation, timer, asset failure, settled probe, dialog
    answer, setup, teardown) moves a stored baseline: it stays for as long
    as the page lives. *)
Theorem baseline_kept_so_every_evaluation_renotifies
    (fetch : string → FetchResult) (a : string) (ks : list Kont) (es : list Event)
    (w : World) :
  sysVersion (watcher w) = Some a →
  a ≠ "" →
  (∀ url, probe_result (fetch url) ≠ "") →
  (∀ url, probe_result (fetch url) ≠ a) →
  (∀ k w0, notifications (exec (resume fetch k) w0) ≠ notifications w0 →
           watcher (exec (resume fetch k) w0) = watcher w0) ∧
  sysVersion (watcher (evaluate fetch ks w)) = Some a ∧
  notifications (evaluate fetch ks w) = notifications w ++ map notification_of_kont ks ∧
  sysVersion (watcher (run es w)) = Some a.
Proof.
  intros Hsv Ha Hb Hab. split; [|split; [|split]].
  - intros k w0 Hn.
    destruct k as [env|cell env]; simpl in *.
    + destruct (versionUpdateHandler_obs fetch (e_checkPath env) (e_silent env)
                  (e_onUpdateDetected env) w0) as (_ & Hw & _ & _ & He).
      rewrite Hw. destruct (truthy_opt (sysVersion (watcher w0))); [reflexivity|].
      simpl in He. apply notifications_app in He. simpl in He.
      rewrite app_nil_r in He. contradiction.
    + by destruct (checkError_resume_obs fetch cell (e_checkPath env) (e_silent env)
                     (e_onUpdateDetected env) w0) as (_ & Hw & _).
  - revert w Hsv. unfold evaluate.
    induction ks as [|k ks IH]; intros w Hsv; simpl; [exact Hsv|].
    destruct (resume_diverged fetch k a w Hsv Ha Hb Hab) as [Hsv' _]. by apply IH.
  - revert w Hsv. unfold evaluate.
    induction ks as [|k ks IH]; intros w Hsv; simpl; [by rewrite app_nil_r|].
    destruct (resume_diverged fetch k a w Hsv Ha Hb Hab) as [Hsv' Hn'].
    rewrite (IH _ Hsv'), Hn', <- app_assoc. reflexivity.
  - rewrite baseline_run; [exact Hsv|]. rewrite Hsv. simpl. by apply truthy_spec.
Qed.

Lemma baseline_kept_witness :
  let w := run with_baseline_v1 example_page in
  let env := {| e_checkPath := "https://app.example/"; e_silent := false;
                e_onUpdateDetected := Some (UserCallback 7); e_ignorePaths := None |} in
  let ks := [KVersionUpdateHandler env; KCheckError 0 env; KVersionUpdateHandler env] in
  let es := [CallPushState "/a"; FetchSettles 1 (etag "v2"); CallDestroy;
             CallSetup noOptions; FetchSettles 2 (etag "v2")] in
  sysVersion (watcher (evaluate (λ _, etag "v2") ks w)) = Some "v1" ∧
  notifications (evaluate (λ _, etag "v2") ks w) =
    notifications w ++ map notification_of_kont ks ∧
  sysVersion (watcher (run es w)) = Some "v1".
Proof.
  intros w env ks es.
  refine (proj2 (baseline_kept_so_every_evaluation_renotifies
                   (λ _, etag "v2") "v1" ks es w _ _ _ _)).
  - vm_compute. reflexivity.
  - discriminate.
  - intros url. vm_compute. discriminate.
  - intros url. vm_compute. discriminate.
Defined.

(** ** The default confirmation flow *)

(** C9. The default flow does not collapse a burst.  Each call of
    [showUpdateDialog] makes its own debounced function, so it cancels no
    timeout and adds one: the timer queue only grows.  On the example page
    two notifications 10 ms apart therefore end in two dialogs, native or
    rich alike. *)
Theorem every_call_of_the_default_flow_shows_a_dialog :
  (∀ silent w,
     timers (loop (exec (showUpdateDialog silent) w)) =
     timers (loop w) ++
       [{| handle := nextHandle (loop w); due := now (loop w) + 500; period := None;
           task := TaskShowDialog silent |}]) ∧
  (∀ rich,
     let burst := [CallPushState "/a"; FetchSettles 1 (etag "v2"); Elapse 10;
                   CallPushState "/b"; FetchSettles 2 (etag "v2"); Elapse 500] in
     let w := run (with_baseline_v1 ++ burst) (page "https://app.example" "/" rich []) in
     notifications w = [EShowUpdateDialog false; EShowUpdateDialog false] ∧
     now (loop w) = 510 ∧
     List.length (dialogs w) = 2).
Proof.
  split.
  - intros silent w. unfold exec. rewrite showUpdateDialog_eval. reflexivity.
  - intros [|]; vm_compute; auto.
Qed.

(** ** Listeners outlive teardown *)

(** C10. [destroyVersionWatcher] takes no listener away: the [popstate]
    and [error] listeners, the failure tallies and the baseline are those of
    before.  So, after teardown, a back/forward navigation still makes every
    attached listener probe (unless its [ignorePaths] matches the new path)
    and a failed same-origin script or stylesheet still raises the tally of
    the listener that hears it; and on the example page, torn down with baseline "v1" while the server
    is at "v2", a back navigation as well as two failed same-origin scripts
    end in a probe and a notification. *)
Theorem teardown_leaves_the_listeners_attached :
  (∀ w, let w' := exec destroyVersionWatcher w in
        popstateListeners (window w') = popstateListeners (window w) ∧
        errorListeners (window w') = errorListeners (window w) ∧
        cells w' = cells w ∧
        sysVersion (watcher w') = sysVersion (watcher w)) ∧
  (∀ w l path,
     reloaded (loop w) = false →
     In l (popstateListeners (window w)) →
     listens_on path l = true →
     let w' := exec destroyVersionWatcher w in
     List.length (probes w') < List.length (probes (step w' (Popstate path)))) ∧
  (∀ w cell deb env target,
     counted (origin (window w)) target = true →
     let w' := exec destroyVersionWatcher w in
     errorCount (cells (exec (on_error (OnError cell deb env) target) w')) =
       <[cell := S (default 0 (errorCount (cells w) !! cell))]> (errorCount (cells w))) ∧
  (let w := run (with_baseline_v1 ++ [CallDestroy]) example_page in
   let back := run [Popstate "/back"; FetchSettles 1 (etag "v2")] w in
   let failed := script "https://app.example/assets/app.js" in
   let errors := run [ErrorEvent failed; ErrorEvent failed; Elapse 1000;
                      FetchSettles 1 (etag "v2")] w in
   isInitialized (watcher w) = false ∧
   List.length (probes w) = 1 ∧
   List.length (probes back) = 2 ∧ notifications back = [EShowUpdateDialog false] ∧
   List.length (probes errors) = 2 ∧ notifications errors = [EShowUpdateDialog false]).
Proof.
  split; [|split; [|split]].
  - intros w w'.
    destruct (destroyVersionWatcher_obs w) as (_ & Hwa & Hwi & Hce & _).
    fold w' in Hwa, Hwi, Hce. rewrite Hwa, Hwi, Hce. auto.
  - intros w l path Hre Hin Hl w'.
    destruct (destroyVersionWatcher_obs w) as (_ & _ & Hwi & _ & Hlo & _).
    fold w' in Hwi, Hlo.
    unfold step. rewrite Hlo. simpl. rewrite Hre. simpl.
    destruct (dispatch_popstate_probes (popstateListeners (window w'))
                (with_window (set_pathname path) w')) as (_ & Hp).
    rewrite Hp. simpl.
    assert (Hin' : In l (List.filter (listens_on path) (popstateListeners (window w')))).
    { apply List.filter_In. split; [|exact Hl]. rewrite Hwi. exact Hin. }
    destruct (List.filter _ _); [contradiction|].
    unfold probes. simpl. lia.
  - intros w cell deb env target Hc w'.
    destruct (destroyVersionWatcher_obs w) as (_ & _ & Hwi & Hce & _).
    fold w' in Hwi, Hce.
    assert (Hc' : counted (origin (window w')) target = true) by (rewrite Hwi; exact Hc).
    destruct (on_error_counted cell deb env target w' Hc') as (H & _).
    rewrite H, Hce. reflexivity.
  - vm_compute. auto 10.
Qed.

Lemma teardown_leaves_the_listeners_witness :
  let w := run with_baseline_v1 example_page in
  let w' := exec destroyVersionWatcher w in
  List.length (probes w') < List.length (probes (step w' (Popstate "/back"))).
Proof.
  intros w.
  refine (proj1 (proj2 teardown_leaves_the_listeners_attached) w
            (OnPopstate (env_of noOptions "https://app.example")) "/back" _ _ _).
  - reflexivity.
  - vm_compute. left. reflexivity.
  - reflexivity.
Defined.

(** * Further properties of the code *)

(** ** What leaves the window alone *)

Lemma same_hooks_refl w : same_hooks w w.
Proof. reflexivity. Qed.

Lemma same_hooks_trans w1 w2 w3 : same_hooks w1 w2 → same_hooks w2 w3 → same_hooks w1 w3.
Proof. unfold same_hooks. congruence. Qed.

Create HintDb hooks.

Ltac hooks_leaf :=
  first [ reflexivity | intros ?; reflexivity | solve [auto with hooks] ].

Ltac hooks := frame_with same_hooks_refl same_hooks_trans hooks_leaf.

Lemma confirm_same_hooks : frames same_hooks confirm.
Proof. intros w. unfold confirm. destruct (confirmAnswers (loop w)); reflexivity. Qed.

Lemma clearTimer_same_hooks o : frames same_hooks (clearTimer o).
Proof. destruct o; intros w; reflexivity. Qed.

#[local] Hint Resolve confirm_same_hooks clearTimer_same_hooks : hooks.

Lemma call_debounced_same_hooks d : frames same_hooks (call_debounced d).
Proof. unfold call_debounced. hooks. Qed.

#[local] Hint Resolve call_debounced_same_hooks : hooks.

Lemma showUpdateDialog_same_hooks silent : frames same_hooks (showUpdateDialog silent).
Proof. unfold showUpdateDialog, emit. hooks. Qed.

Lemma location_reload_same_hooks : frames same_hooks location_reload.
Proof. unfold location_reload, emit. hooks. Qed.

#[local] Hint Resolve showUpdateDialog_same_hooks location_reload_same_hooks : hooks.

Lemma resume_same_hooks fetch k : frames same_hooks (resume fetch k).
Proof.
  destruct k; cbn [resume];
    unfold versionUpdateHandler, checkError_resume, getETag, get_sysVersion, put_sysVersion,
      put_errorCount, console_log, console_warn, emit; hooks.
Qed.

Lemma run_task_same_hooks t : frames same_hooks (run_task t).
Proof.
  destruct t; cbn [run_task];
    unfold call_versionUpdateHandler, checkError_fn, showDialog_fn, get_errorCount,
      put_errorCount, console_log, emit; hooks.
Qed.

Lemma on_navigation_same_hooks env : frames same_hooks (on_navigation env).
Proof. unfold on_navigation, ignored, call_versionUpdateHandler, console_log. hooks. Qed.

#[local] Hint Resolve on_navigation_same_hooks : hooks.

Lemma on_error_same_hooks l target : frames same_hooks (on_error l target).
Proof.
  destruct l as [cell deb env].
  unfold on_error, get_errorCount, put_errorCount, console_warn. hooks.
Qed.

Lemma call_history_same_hooks f path : frames same_hooks (call_history f path).
Proof. induction f as [|original IH env]; simpl; hooks. Qed.

Lemma dialog_answered_same_hooks accept : frames same_hooks (dialog_answered accept).
Proof. unfold dialog_answered, emit. hooks. Qed.

Lemma fire_same_hooks batch w : same_hooks w (fire batch w).
Proof.
  revert w. induction batch as [|t batch IH]; intros w; simpl; [reflexivity|].
  destruct (reloaded (loop w) || negb (registered (handle t) w)); [apply IH|].
  eapply same_hooks_trans; [|apply IH].
  eapply same_hooks_trans; [|apply run_task_same_hooks].
  unfold rearm. destruct (period t); reflexivity.
Qed.

Lemma elapse_same_hooks ms w : same_hooks w (elapse ms w).
Proof.
  revert w. induction ms as [|ms IH]; intros w; simpl; [reflexivity|].
  eapply same_hooks_trans; [|apply IH]. unfold tick.
  eapply same_hooks_trans; [|apply fire_same_hooks]. reflexivity.
Qed.

(** Every event but setup and teardown leaves the window as it is, but for
    the path. *)
Lemma react_same_hooks e w : is_lifecycle e = false → same_hooks w (react e w).
Proof.
  destruct e as [options| |path|path|path|target|ms|id result|accept]; simpl;
    try discriminate; intros _.
  - apply call_history_same_hooks.
  - apply call_history_same_hooks.
  - eapply same_hooks_trans;
      [|apply (frames_dispatch same_hooks same_hooks_refl same_hooks_trans)].
    + reflexivity.
    + intros [env]. apply on_navigation_same_hooks.
  - apply (frames_dispatch same_hooks same_hooks_refl same_hooks_trans).
    intros l. apply on_error_same_hooks.
  - apply elapse_same_hooks.
  - destruct (take_pending id w) as [k|]; [|reflexivity].
    eapply same_hooks_trans; [|apply resume_same_hooks]. reflexivity.
  - apply dialog_answered_same_hooks.
Qed.

(** ** History hooks *)

Lemma same_hooks_fields w w' :
  same_hooks w w' →
  pushState (window w') = pushState (window w) ∧
  replaceState (window w') = replaceState (window w) ∧
  ORIGINAL_PUSH_STATE (window w') = ORIGINAL_PUSH_STATE (window w) ∧
  ORIGINAL_REPLACE_STATE (window w') = ORIGINAL_REPLACE_STATE (window w) ∧
  popstateListeners (window w') = popstateListeners (window w) ∧
  errorListeners (window w') = errorListeners (window w) ∧
  origin (window w') = origin (window w).
Proof.
  unfold same_hooks. intros H.
  pose proof (f_equal pushState H). pose proof (f_equal replaceState H).
  pose proof (f_equal ORIGINAL_PUSH_STATE H). pose proof (f_equal ORIGINAL_REPLACE_STATE H).
  pose proof (f_equal popstateListeners H). pose proof (f_equal errorListeners H).
  pose proof (f_equal origin H). auto 10.
Qed.

Lemma saved_for_default f saved :
  saved_for f saved → default f saved = NativeHistoryFn.
Proof. destruct saved; simpl; auto. Qed.

Lemma hooks_wf_setup options w :
  hooks_wf w → hooks_wf (exec (setupVersionWatcher options) w).
Proof.
  intros Hw.
  destruct (default true (enabled options)) eqn:Hen.
  - destruct (isInitialized (watcher w)) eqn:Hin.
    + unfold exec. rewrite setupVersionWatcher_again by assumption. simpl.
      by destruct (default false (silent options)).
    + destruct (ignores options (pathname (window w))) eqn:Hig.
      * destruct (setupVersionWatcher_bypassed options w Hig) as (_ & _ & _ & _ & Hwi & _).
        unfold hooks_wf. rewrite Hwi. exact Hw.
      * destruct (setupVersionWatcher_arms options w Hen Hin Hig)
          as (_ & _ & Hps & Hrs & Hop & Hor & _).
        destruct Hw as (_ & _ & Hsp & Hsr).
        unfold hooks_wf. rewrite Hps, Hrs, Hop, Hor.
        rewrite (saved_for_default _ _ Hsp), (saved_for_default _ _ Hsr). simpl. auto.
  - unfold exec. rewrite setupVersionWatcher_disabled by assumption. simpl.
    by destruct (default false (silent options)).
Qed.

(** On a well-hooked page teardown puts the browser's own functions back. *)
Lemma destroy_unhooks w :
  hooks_wf w →
  let w' := exec destroyVersionWatcher w in
  pushState (window w') = NativeHistoryFn ∧
  replaceState (window w') = NativeHistoryFn ∧
  ORIGINAL_PUSH_STATE (window w') = ORIGINAL_PUSH_STATE (window w) ∧
  ORIGINAL_REPLACE_STATE (window w') = ORIGINAL_REPLACE_STATE (window w).
Proof.
  intros (_ & _ & Hsp & Hsr).
  destruct (destroyVersionWatcher_obs w) as (_ & _ & Hwi & _).
  simpl. rewrite Hwi. simpl.
  rewrite (saved_for_default _ _ Hsp), (saved_for_default _ _ Hsr). auto.
Qed.

Lemma hooks_wf_destroy w : hooks_wf w → hooks_wf (exec destroyVersionWatcher w).
Proof.
  intros Hw. destruct (destroy_unhooks w Hw) as (Hps & Hrs & Hop & Hor).
  destruct Hw as (_ & _ & Hsp & Hsr).
  unfold hooks_wf. rewrite Hps, Hrs, Hop, Hor. simpl.
  destruct (ORIGINAL_PUSH_STATE (window w)), (ORIGINAL_REPLACE_STATE (window w));
    simpl in *; auto.
Qed.

Lemma hooks_wf_step w e : hooks_wf w → hooks_wf (step w e).
Proof.
  intros Hw. unfold step. destruct (reloaded (loop w)); [exact Hw|].
  destruct (is_lifecycle e) eqn:He.
  - destruct e; try discriminate; simpl.
    + by apply hooks_wf_setup.
    + by apply hooks_wf_destroy.
  - destruct (same_hooks_fields _ _ (react_same_hooks e w He))
      as (Hps & Hrs & Hop & Hor & _).
    unfold hooks_wf. rewrite Hps, Hrs, Hop, Hor. exact Hw.
Qed.

Lemma hooks_wf_run es w : hooks_wf w → hooks_wf (run es w).
Proof.
  revert w. induction es as [|e es IH]; intros w Hw; simpl; [exact Hw|].
  by apply IH, hooks_wf_step.
Qed.

Lemma hooks_wf_page origin path rich answers : hooks_wf (page origin path rich answers).
Proof. unfold hooks_wf. simpl. auto. Qed.

(** A call of a history function that is wrapped at most once issues at
    most one probe, and only if the wrapper's [ignorePaths] does not match
    the path navigated to. *)
Lemma call_history_once f path w :
  wrapped_once f →
  let w' := exec (call_history f path) w in
  pathname (window w') = path ∧
  effects w' = effects w ++
    match f with
    | HookedHistoryFn _ env =>
        if listens_on path (OnPopstate env)
        then [EFetch (nextFetch (loop w)) (e_checkPath env)] else []
    | NativeHistoryFn => []
    end.
Proof.
  destruct f as [|[|g env'] env]; simpl; [| |contradiction]; intros _.
  - by rewrite app_nil_r.
  - unfold exec. js_unfold. simpl.
    destruct (on_navigation_obs env (with_window (set_pathname path) w)) as (Hwi & _ & Hef).
    unfold exec in Hwi, Hef. rewrite Hwi, Hef. simpl. auto.
Qed.

(** X1. However often setup and teardown are called on a loaded page,
    [history.pushState] and [history.replaceState] are the browser's own
    functions or one wrapper around them, never a wrapper around a wrapper,
    and the saved originals are the browser's own.  So a call of either
    navigates and issues at most one probe. *)
Theorem history_is_never_wrapped_twice
    (origin path : string) (rich : bool) (answers : list bool) (es : list Event)
    (path' : string) :
  let p := run es (page origin path rich answers) in
  hooks_wf p ∧
  (List.length (probes (step p (CallPushState path'))) ≤ S (List.length (probes p)))%nat ∧
  (List.length (probes (step p (CallReplaceState path'))) ≤ S (List.length (probes p)))%nat.
Proof.
  intros p.
  assert (Hp : hooks_wf p) by apply hooks_wf_run, hooks_wf_page.
  split; [exact Hp|].
  destruct Hp as (Hps & Hrs & _).
  unfold step. destruct (reloaded (loop p)); simpl; [split; lia|].
  destruct (call_history_once _ path' p Hps) as (_ & He1).
  destruct (call_history_once _ path' p Hrs) as (_ & He2).
  unfold probes. rewrite He1, He2, !List.filter_app, !length_app.
  split.
  - destruct (pushState (window p)) as [|g env]; [simpl; lia|].
    destruct (listens_on path' (OnPopstate env)); simpl; lia.
  - destruct (replaceState (window p)) as [|g env]; [simpl; lia|].
    destruct (listens_on path' (OnPopstate env)); simpl; lia.
Qed.

(** X2. On a page reached from a fresh load, teardown puts the browser's
    own [pushState] and [replaceState] back: a navigation through either
    then changes the path and nothing else, no probe is issued. *)
Theorem teardown_unhooks_the_history
    (origin path : string) (rich : bool) (answers : list bool) (es : list Event)
    (path' : string) :
  let q := exec destroyVersionWatcher (run es (page origin path rich answers)) in
  pushState (window q) = NativeHistoryFn ∧
  replaceState (window q) = NativeHistoryFn ∧
  react (CallPushState path') q = with_window (set_pathname path') q ∧
  react (CallReplaceState path') q = with_window (set_pathname path') q.
Proof.
  intros q.
  assert (Hp : hooks_wf (run es (page origin path rich answers)))
    by apply hooks_wf_run, hooks_wf_page.
  destruct (destroy_unhooks _ Hp) as (Hps & Hrs & _). fold q in Hps, Hrs.
  simpl. rewrite Hps, Hrs. auto.
Qed.

(** ** Listeners are never removed *)

Lemma setup_appends_listeners options w :
  let w' := exec (setupVersionWatcher options) w in
  popstateListeners (window w) `prefix_of` popstateListeners (window w') ∧
  errorListeners (window w) `prefix_of` errorListeners (window w').
Proof.
  destruct (default true (enabled options)) eqn:Hen.
  - destruct (isInitialized (watcher w)) eqn:Hin.
    + unfold exec. rewrite setupVersionWatcher_again by assumption. simpl.
      by destruct (default false (silent options)).
    + destruct (ignores options (pathname (window w))) eqn:Hig.
      * destruct (setupVersionWatcher_bypassed options w Hig) as (_ & _ & _ & _ & Hwi & _).
        simpl. by rewrite Hwi.
      * destruct (setupVersionWatcher_arms options w Hen Hin Hig)
          as (_ & _ & _ & _ & _ & _ & Hpl & Hel & _).
        simpl. rewrite Hpl, Hel. split; apply prefix_app_r; reflexivity.
  - unfold exec. rewrite setupVersionWatcher_disabled by assumption. simpl.
    by destruct (default false (silent options)).
Qed.

Lemma step_keeps_listeners w e :
  popstateListeners (window w) `prefix_of` popstateListeners (window (step w e)) ∧
  errorListeners (window w) `prefix_of` errorListeners (window (step w e)).
Proof.
  unfold step. destruct (reloaded (loop w)); [done|].
  destruct (is_lifecycle e) eqn:He.
  - destruct e; try discriminate; simpl.
    + apply setup_appends_listeners.
    + destruct (destroyVersionWatcher_obs w) as (_ & _ & Hwi & _). by rewrite Hwi.
  - destruct (same_hooks_fields _ _ (react_same_hooks e w He))
      as (_ & _ & _ & _ & Hpl & Hel & _).
    by rewrite Hpl, Hel.
Qed.

(** X3. Nothing ever removes a listener: along any run, whatever the
    events (teardown included), the [popstate] and [error] listeners a page
    has stay attached, in place, and later ones are added behind them. *)
Theorem listeners_are_never_removed (es : list Event) (w : World) :
  popstateListeners (window w) `prefix_of` popstateListeners (window (run es w)) ∧
  errorListeners (window w) `prefix_of` errorListeners (window (run es w)).
Proof.
  revert w. induction es as [|e es IH]; intros w; simpl; [done|].
  destruct (step_keeps_listeners w e) as [H1 H2].
  destruct (IH (step w e)) as [H3 H4].
  split; etrans; eauto.
Qed.

Lemma step_alive w e : reloaded (loop w) = false → step w e = react e w.
Proof. intros H. unfold step. by rewrite H. Qed.

Lemma cycles_from k options w :
  default true (enabled options) = true →
  ignores options (pathname (window w)) = false →
  reloaded (loop w) = false →
  isInitialized (watcher w) = false →
  let p := run (cycles k options) w in
  let env := env_of options (origin (window w)) in
  popstateListeners (window p) =
    popstateListeners (window w) ++ replicate k (OnPopstate env) ∧
  List.length (errorListeners (window p)) = List.length (errorListeners (window w)) + k ∧
  List.length (probes p) = List.length (probes w) + k ∧
  reloaded (loop p) = false ∧
  isInitialized (watcher p) = false.
Proof.
  intros Hen. revert w. induction k as [|k IH]; intros w Hig Hre Hin.
  - simpl. rewrite app_nil_r. auto with lia.
  - change (run (cycles (S k) options) w)
      with (run (cycles k options) (step (step w (CallSetup options)) CallDestroy)).
    rewrite (step_alive w) by exact Hre. simpl react.
    set (w1 := exec (setupVersionWatcher options) w).
    destruct (setupVersionWatcher_arms options w Hen Hin Hig)
      as (_ & _ & _ & _ & _ & _ & Hpl & Hel & _ & Hef).
    destruct (setupVersionWatcher_keeps options w) as (Hor & Hpa & _ & _ & _ & _ & Hre1 & _).
    fold w1 in Hpl, Hel, Hef, Hor, Hpa, Hre1.
    rewrite (step_alive w1) by congruence. simpl react.
    set (w2 := exec destroyVersionWatcher w1).
    destruct (destroyVersionWatcher_obs w1) as (_ & Hwa & Hwi & _ & Hlo & _ & Hef2).
    fold w2 in Hwa, Hwi, Hlo, Hef2.
    assert (Hig2 : ignores options (pathname (window w2)) = false)
      by (rewrite Hwi; simpl; rewrite Hpa; exact Hig).
    assert (Hre2 : reloaded (loop w2) = false) by (rewrite Hlo; simpl; congruence).
    assert (Hin2 : isInitialized (watcher w2) = false) by (rewrite Hwa; reflexivity).
    destruct (IH w2 Hig2 Hre2 Hin2) as (IHp & IHe & IHf & IHr & IHi).
    simpl. rewrite IHp, IHe, IHf. unfold probes at 1. rewrite Hef2, Hef, Hwi. simpl.
    rewrite Hpl, Hel, Hor, List.filter_app, !length_app, <- app_assoc. simpl.
    fold (probes w). repeat split; auto; lia.
Qed.

(** X4. Each round of setup and teardown leaves one more [popstate]
    listener and one more [error] listener behind.  After [k] rounds on a
    fresh page (watcher enabled, path not ignored) there are [k] of each,
    although the watcher is torn down, and one back/forward navigation to a
    path that is not ignored issues [k] probes. *)
Theorem setup_teardown_rounds_pile_up_listeners
    (k : nat) (options : VersionWatcherOptions) (origin path path' : string)
    (rich : bool) (answers : list bool) :
  default true (enabled options) = true →
  ignores options path = false →
  ignores options path' = false →
  let p := run (cycles k options) (page origin path rich answers) in
  isInitialized (watcher p) = false ∧
  List.length (popstateListeners (window p)) = k ∧
  List.length (errorListeners (window p)) = k ∧
  List.length (probes (step p (Popstate path'))) = List.length (probes p) + k.
Proof.
  intros Hen Hig Hig' p.
  destruct (cycles_from k options (page origin path rich answers) Hen Hig eq_refl eq_refl)
    as (Hpl & Hel & _ & Hre & Hin).
  fold p in Hpl, Hel, Hre, Hin. simpl in Hpl, Hel.
  split; [exact Hin|]. split; [by rewrite Hpl, length_replicate|]. split; [exact Hel|].
  unfold step. rewrite Hre. simpl.
  destruct (dispatch_popstate_probes (popstateListeners (window p))
              (with_window (set_pathname path') p)) as (_ & Hp).
  rewrite Hp. simpl. fold (probes p). f_equal. rewrite Hpl.
  clear - Hig'. induction k as [|k IH]; simpl; [reflexivity|].
  unfold ignores in Hig'. simpl.
  destruct (ignorePaths options) as [re|]; simpl in *; rewrite ?Hig'; simpl; by rewrite IH.
Qed.

Lemma setup_teardown_rounds_witness :
  let p := run (cycles 3 noOptions) example_page in
  isInitialized (watcher p) = false ∧
  List.length (popstateListeners (window p)) = 3 ∧
  List.length (errorListeners (window p)) = 3 ∧
  List.length (probes (step p (Popstate "/back"))) = List.length (probes p) + 3.
Proof.
  exact (setup_teardown_rounds_pile_up_listeners 3 noOptions "https://app.example" "/" "/back"
           false [] eq_refl eq_refl eq_refl).
Defined.

(** ** Time passing *)

Lemma with_loop_now_0 w : with_loop (λ l, set_now (now l + 0) l) w = w.
Proof.
  destruct w as [wa wi cs [n nh ts nf pe ca od re] co ef].
  unfold with_loop, set_now. simpl. by rewrite Nat.add_0_r.
Qed.

Lemma filter_not_due t_now ts :
  Forall (λ t, t_now < due t) ts → List.filter (is_due t_now) ts = [].
Proof.
  induction 1 as [|t ts Ht _ IH]; simpl; [reflexivity|].
  unfold is_due at 1. destruct (Nat.leb_spec (due t) t_now); [lia | exact IH].
Qed.

(** While no timer comes due, only the clock moves. *)
Lemma elapse_idle n w :
  Forall (λ t, now (loop w) + n < due t) (timers (loop w)) →
  elapse n w = with_loop (λ l, set_now (now l + n) l) w.
Proof.
  revert w. induction n as [|n IH]; intros w Hts; simpl.
  - by rewrite with_loop_now_0.
  - unfold tick. simpl. rewrite filter_not_due.
    + simpl. rewrite IH.
      * destruct w as [wa wi cs [m nh ts nf pe ca od re] co ef].
        unfold with_loop, set_now. simpl. do 2 f_equal. lia.
      * simpl. eapply List.Forall_impl; [|exact Hts]. simpl. intros t. lia.
    + eapply List.Forall_impl; [|exact Hts]. simpl. intros t. lia.
Qed.

Lemma elapse_add a b w : elapse (a + b) w = elapse b (elapse a w).
Proof. revert w. induction a as [|a IH]; intros w; simpl; [reflexivity | apply IH]. Qed.

(** ** The periodic timer *)



(** What an effective [setupVersionWatcher] adds to the closure cells and
    to the counters of the event loop. *)
Lemma setupVersionWatcher_arms_cells options w :
  default true (enabled options) = true →
  isInitialized (watcher w) = false →
  ignores options (pathname (window w)) = false →
  let w' := exec (setupVersionWatcher options) w in
  errorCount (cells w') = errorCount (cells w) ++ [0] ∧
  debounceTimer (cells w') = debounceTimer (cells w) ++ [None] ∧
  nextFetch (loop w') = S (nextFetch (loop w)) ∧
  console w' = console w ++
    (if default false (silent options) then [] else [ConsoleLog MsgEnabled]).
Proof.
  destruct w as [[sv ct ini] [o p op or ps rs pl el mb m] [ec dt] [n nh ts nf pe ca od re] co ef].
  destruct options as [en ci cp si cb ig].
  unfold ignores; simpl. intros Hen -> Hig.
  unfold setupVersionWatcher, ignored, hookHistoryChange, setupErrorMonitoring, debounce,
    call_versionUpdateHandler, await_fetch, setInterval, setTimer.
  js_unfold. simpl. rewrite Hen. simpl.
  destruct (default false si), ig as [re'|]; simpl; rewrite ?Hig; simpl;
    destruct (0 <? default 0 ci)%Z, op as [f|], or as [g|]; simpl;
    rewrite ?app_nil_r; auto 12.
Qed.



(** X6. Without a positive [checkInterval] (absent, zero or negative) setup
    arms no timer at all: [checkTimer] stays empty, and however much time
    passes the only probe is the initial one. *)
Theorem no_timer_without_a_positive_interval
    (options : VersionWatcherOptions) (n : nat) (origin path : string)
    (rich : bool) (answers : list bool) :
  default true (enabled options) = true →
  ignores options path = false →
  (default 0 (checkInterval options) ≤ 0)%Z →
  let p := run [CallSetup options; Elapse n] (page origin path rich answers) in
  effects p = [EFetch 0 (e_checkPath (env_of options origin))] ∧
  timers (loop p) = [] ∧
  checkTimer (watcher p) = None ∧
  now (loop p) = n.
Proof.
  intros Hen Hig Hci p.
  set (w0 := page origin path rich answers).
  set (w1 := exec (setupVersionWatcher options) w0).
  destruct (setupVersionWatcher_arms options w0 Hen eq_refl Hig)
    as (Hwa & Hti & _ & _ & _ & _ & _ & _ & _ & Hef).
  destruct (setupVersionWatcher_keeps options w0) as (_ & _ & _ & Hnow & _ & _ & Hre & _).
  fold w1 in Hwa, Hti, Hef, Hnow, Hre. simpl in Hwa, Hti, Hef, Hnow, Hre.
  unfold interval_of in Hwa, Hti.
  destruct (Z.ltb_spec 0 (default 0%Z (checkInterval options))) as [|_]; [lia|].
  simpl in Hwa, Hti.
  assert (Hp : p = elapse n w1).
  { unfold p. change (run [CallSetup options; Elapse n] (page origin path rich answers))
      with (step (step w0 (CallSetup options)) (Elapse n)).
    rewrite (step_alive w0) by reflexivity. simpl react. fold w1.
    by rewrite (step_alive w1) by exact Hre. }
  rewrite Hp, elapse_idle by (rewrite Hti; constructor).
  simpl. rewrite Hef, Hti, Hwa, Hnow. auto.
Qed.

Lemma no_timer_witness :
  let options := {| enabled := None; checkInterval := Some (-5)%Z; checkPath := None;
                    silent := None; onUpdateDetected := None; ignorePaths := None |} in
  let p := run [CallSetup options; Elapse 5000] example_page in
  effects p = [EFetch 0 (e_checkPath (env_of options "https://app.example"))] ∧
  timers (loop p) = [] ∧
  checkTimer (watcher p) = None ∧
  now (loop p) = 5000.
Proof.
  intros options.
  refine (no_timer_without_a_positive_interval options 5000 "https://app.example" "/"
            false [] eq_refl eq_refl _).
  simpl. lia.
Defined.

(** ** The correlator's debounce *)









(** ** The default flow, from notification to dialog *)

Lemma dialog_timer_fires silent h g w :
  timers (loop w) =
    [{| handle := h; due := now (loop w) + S g; period := None;
        task := TaskShowDialog silent |}] →
  reloaded (loop w) = false →
  let w2 := elapse (S g) w in
  let rich := ElMessageBox (window w) in
  effects w2 = effects w ++
    (if rich then [EDialog RichDialog]
     else EDialog NativeConfirm :: (if next_answer w then [EReload] else [])) ∧
  reloaded (loop w2) = negb rich && next_answer w ∧
  console w2 = console w ++
    (if rich || next_answer w || silent then [] else [ConsoleLog MsgReloadCancelled]) ∧
  timers (loop w2) = [] ∧
  watcher w2 = watcher w.
Proof.
  intros Hts Hre.
  assert (Hsplit : elapse (S g) w = elapse 1 (elapse g w))
    by (rewrite <- elapse_add; f_equal; lia).
  cbv zeta. rewrite Hsplit. clear Hsplit.
  rewrite (elapse_idle g w) by (rewrite Hts; repeat constructor; simpl; lia).
  unfold next_answer.
  destruct w as [wa [o p op or ps rs pl el mb m] cs [n nh ts nf pe ca od re] co ef].
  simpl in *. subst ts re.
  unfold tick, is_due. simpl.
  replace (n + S g <=? S (n + g))%nat with true by (symmetry; apply Nat.leb_le; lia).
  simpl. unfold registered. simpl. rewrite Pos.eqb_refl. simpl.
  unfold keep_other. simpl. rewrite ?Pos.eqb_refl. simpl.
  unfold showDialog_fn, location_reload, confirm. js_unfold. simpl.
  destruct mb; simpl.
  - unfold keep_other; simpl; rewrite ?Pos.eqb_refl; simpl; rewrite ?app_nil_r; auto 10.
  - destruct ca as [|[|] ca]; simpl; destruct silent; simpl;
      unfold keep_other; simpl; rewrite ?Pos.eqb_refl; simpl;
      rewrite <- ?app_assoc, ?app_nil_r; simpl; auto 10.
Qed.

(** X8. The default flow on a page with no timer pending: for the first
    499 ms after [showUpdateDialog] nothing is shown; at 500 ms exactly one
    dialog is presented, the rich one if [window.ElMessageBox] exists and
    else the native [confirm].  Accepting the native one reloads the page;
    declining it is logged, unless [silent], and changes nothing else. *)
Theorem default_flow_presents_one_dialog_after_500ms (silent : bool) (w : World) :
  timers (loop w) = [] →
  reloaded (loop w) = false →
  let w1 := exec (showUpdateDialog silent) w in
  let w2 := elapse 500 w1 in
  let rich := ElMessageBox (window w) in
  (∀ g, g < 500 → effects (elapse g w1) = effects w ++ [EShowUpdateDialog silent]) ∧
  effects w2 = effects w ++ [EShowUpdateDialog silent] ++
    (if rich then [EDialog RichDialog]
     else EDialog NativeConfirm :: (if next_answer w then [EReload] else [])) ∧
  reloaded (loop w2) = negb rich && next_answer w ∧
  console w2 = console w ++
    (if rich || next_answer w || silent then [] else [ConsoleLog MsgReloadCancelled]) ∧
  timers (loop w2) = [] ∧
  watcher w2 = watcher w.
Proof.
  intros Hts Hre w1 w2 rich.
  assert (Hw1 : timers (loop w1) =
                  [{| handle := nextHandle (loop w); due := now (loop w1) + 500;
                      period := None; task := TaskShowDialog silent |}] ∧
                reloaded (loop w1) = false ∧
                effects w1 = effects w ++ [EShowUpdateDialog silent] ∧
                console w1 = console w ∧ watcher w1 = watcher w ∧
                ElMessageBox (window w1) = ElMessageBox (window w) ∧
                next_answer w1 = next_answer w).
  { unfold w1, exec. rewrite showUpdateDialog_eval. cbn [snd]. cbv zeta.
    destruct w as [wa wi cs lo co ef]. unfold next_answer. simpl in *.
    rewrite Hts. auto 10. }
  clearbody w1. destruct Hw1 as (Hts1 & Hre1 & Hef1 & Hco1 & Hwa1 & Hmb1 & Hna1).
  split.
  - intros g Hg. rewrite elapse_idle.
    + simpl. exact Hef1.
    + rewrite Hts1. repeat constructor. simpl. lia.
  - destruct (dialog_timer_fires silent _ 499 w1 Hts1 Hre1) as (Hef2 & Hre2 & Hco2 & Hts2 & Hwa2).
    fold w2 in Hef2, Hre2, Hco2, Hts2, Hwa2. clearbody w2.
    unfold rich. rewrite Hef2, Hre2, Hco2, Hts2, Hwa2, Hef1, Hco1, Hwa1, Hmb1, Hna1.
    rewrite <- app_assoc. auto 10.
Qed.

Lemma default_flow_witness :
  let w := run with_baseline_v1 (page "https://app.example" "/" false [true]) in
  let w2 := elapse 500 (exec (showUpdateDialog false) w) in
  reloaded (loop w2) = negb (ElMessageBox (window w)) && next_answer w ∧
  console w2 = console w ++
    (if ElMessageBox (window w) || next_answer w || false then []
     else [ConsoleLog MsgReloadCancelled]) ∧
  timers (loop w2) = [] ∧
  watcher w2 = watcher w.
Proof.
  intros w.
  refine (proj2 (proj2 (default_flow_presents_one_dialog_after_500ms false w _ _))).
  - vm_compute. reflexivity.
  - vm_compute. reflexivity.
Defined.

(** ** Teardown, repeated or early *)

(** X9. Teardown is safe at any time and idempotent: called on a page
    where the watcher was never set up it changes nothing but the console,
    and called twice in a row the second call changes nothing but the
    console either.  Each call logs [Destroyed], whatever [silent] was. *)
Theorem teardown_is_idempotent (w : World) (origin path : string) (rich : bool)
    (answers : list bool) :
  let w1 := exec destroyVersionWatcher w in
  let w2 := exec destroyVersionWatcher w1 in
  let p := page origin path rich answers in
  (watcher w2 = watcher w1 ∧ window w2 = window w1 ∧ cells w2 = cells w1 ∧
   loop w2 = loop w1 ∧ effects w2 = effects w1 ∧
   console w2 = console w1 ++ [ConsoleLog MsgDestroyed]) ∧
  exec destroyVersionWatcher p = with_console (λ c, c ++ [ConsoleLog MsgDestroyed]) p.
Proof.
  intros w1 w2 p. split; [|reflexivity].
  destruct (destroyVersionWatcher_obs w) as (_ & Hwa & Hwi & Hce & Hlo & Hco & Hef).
  destruct (destroyVersionWatcher_obs w1) as (_ & Hwa2 & Hwi2 & Hce2 & Hlo2 & Hco2 & Hef2).
  fold w1 in Hwa, Hwi, Hce, Hlo, Hco, Hef. fold w2 in Hwa2, Hwi2, Hce2, Hlo2, Hco2, Hef2.
  rewrite Hwa2, Hwi2, Hce2, Hlo2, Hco2, Hef2.
  rewrite Hwa. simpl. split; [reflexivity|].
  split.
  - rewrite Hwi. simpl.
    destruct (window w) as [o pa op or ps rs pl el mb m]. simpl.
    destruct op, or; reflexivity.
  - split; [reflexivity|]. split; [|auto].
    destruct (loop w1); reflexivity.
Qed.

(** ** Navigation and the ignore list *)

Lemma on_navigation_eval env w : exec (on_navigation env) w = navigated env w.
Proof.
  unfold on_navigation, navigated, ignored, call_versionUpdateHandler, listens_on.
  js_unfold. simpl.
  destruct (e_ignorePaths env) as [re|]; simpl; [destruct (re _); simpl|]; auto.
  destruct (e_silent env); reflexivity.
Qed.

(** X10. After an effective setup on a fresh page the three kinds of
    navigation, [pushState], [replaceState] and back/forward, do the same
    thing: the location changes first, then [ignorePaths] is tested on the
    path navigated to (not the one left); on a match nothing is probed and
    the skip is logged unless [silent], otherwise exactly one probe goes to
    [checkPath]. *)
Theorem navigation_tests_the_destination_path
    (options : VersionWatcherOptions) (origin path path' : string) (rich : bool)
    (answers : list bool) :
  default true (enabled options) = true →
  ignores options path = false →
  let p := step (page origin path rich answers) (CallSetup options) in
  let env := env_of options origin in
  let arrived := navigated env (with_window (set_pathname path') p) in
  step p (CallPushState path') = arrived ∧
  step p (CallReplaceState path') = arrived ∧
  step p (Popstate path') = arrived ∧
  pathname (window arrived) = path' ∧
  effects arrived = effects p ++
    (if ignores options path' then [] else [EFetch 1 (e_checkPath env)]).
Proof.
  intros Hen Hig p env arrived.
  set (w0 := page origin path rich answers).
  assert (Hp : p = exec (setupVersionWatcher options) w0) by reflexivity.
  destruct (setupVersionWatcher_arms options w0 Hen eq_refl Hig)
    as (_ & _ & Hps & Hrs & _ & _ & Hpl & _ & _ & _).
  destruct (setupVersionWatcher_arms_cells options w0 Hen eq_refl Hig) as (_ & _ & Hnf & _).
  destruct (setupVersionWatcher_keeps options w0) as (_ & _ & _ & _ & _ & _ & Hre & _).
  rewrite <- Hp in Hps, Hrs, Hpl, Hre, Hnf. simpl in Hps, Hrs, Hpl, Hre, Hnf.
  fold env in Hps, Hrs, Hpl.
  rewrite !(step_alive p) by exact Hre. simpl react.
  rewrite Hps, Hrs, Hpl. simpl.
  unfold exec at 1 2. js_unfold. simpl.
  change (snd (on_navigation env (with_window (set_pathname path') p)))
    with (exec (on_navigation env) (with_window (set_pathname path') p)).
  rewrite on_navigation_eval. fold arrived.
  split; [reflexivity|]. split; [reflexivity|]. split; [reflexivity|].
  unfold arrived, navigated, listens_on, ignores, env, env_of. simpl.
  destruct (ignorePaths options) as [re|]; simpl; [destruct (re path'); simpl|];
    try destruct (default false (silent options)); simpl;
    rewrite ?app_nil_r, ?Hnf; auto.
Qed.

Lemma navigation_witness :
  let options := {| enabled := None; checkInterval := None; checkPath := None;
                    silent := None; onUpdateDetected := None;
                    ignorePaths := Some (λ p, String.prefix "/admin" p) |} in
  let p := step example_page (CallSetup options) in
  let env := env_of options "https://app.example" in
  let arrived := navigated env (with_window (set_pathname "/admin/users") p) in
  step p (CallPushState "/admin/users") = arrived ∧
  step p (CallReplaceState "/admin/users") = arrived ∧
  step p (Popstate "/admin/users") = arrived ∧
  pathname (window arrived) = "/admin/users" ∧
  effects arrived = effects p ++ [].
Proof.
  intros options.
  exact (navigation_tests_the_destination_path options "https://app.example" "/"
           "/admin/users" false [] eq_refl eq_refl).
Defined.

(** ** The Vue plugin *)

(** X11. The plugin guards each application and the watcher guards the
    page.  Installing again on an application that has the plugin does
    nothing but warn, whatever the options (also with [silent]).  Installing
    on a second application of the same page marks it and gives it the
    handle, but its options are not used: the watcher the first application
    set up stays as it is, with at most the "already registered" warning
    added to the console. *)
Theorem plugin_installs_one_watcher_per_page
    (app other : VueApp) (o1 o2 : option VersionWatcherOptions) (w : World) :
  _versionWatcherInstalled app = false →
  _versionWatcherInstalled other = false →
  default true (enabled (default noOptions o1)) = true →
  default true (enabled (default noOptions o2)) = true →
  let '(app1, _, w1) := install app o1 w in
  install app1 o2 w1 = (app1, [PluginAlreadyInstalled], w1) ∧
  install other o2 w1 =
    ({| _versionWatcherInstalled := true; versionWatcher_handle := true |}, [],
     if default false (silent (default noOptions o2)) then w1
     else with_console (λ c, c ++ [ConsoleWarn MsgAlreadyRegistered]) w1).
Proof.
  intros Ha Ho H1 H2. unfold install. rewrite Ha, Ho. simpl. split; [reflexivity|].
  f_equal. unfold exec at 1.
  rewrite setupVersionWatcher_again;
    [reflexivity | exact H2 | by apply setupVersionWatcher_initializes].
Qed.

Lemma plugin_installs_witness :
  let app := {| _versionWatcherInstalled := false; versionWatcher_handle := false |} in
  let '(app1, _, w1) := install app None example_page in
  install app1 (Some noOptions) w1 = (app1, [PluginAlreadyInstalled], w1) ∧
  install app (Some noOptions) w1 =
    ({| _versionWatcherInstalled := true; versionWatcher_handle := true |}, [],
     with_console (λ c, c ++ [ConsoleWarn MsgAlreadyRegistered]) w1).
Proof.
  intros app.
  exact (plugin_installs_one_watcher_per_page app app None (Some noOptions) example_page
           eq_refl eq_refl eq_refl eq_refl).
Defined.

(** ** A custom callback replaces the default flow *)

Lemma keeps_custom_refl w : keeps_custom w w.
Proof. exact id. Qed.

Lemma keeps_custom_trans w1 w2 w3 :
  keeps_custom w1 w2 → keeps_custom w2 w3 → keeps_custom w1 w3.
Proof. unfold keeps_custom. auto. Qed.

Lemma keeps_custom_console f w : keeps_custom w (with_console f w).
Proof. exact id. Qed.

Lemma keeps_custom_cells f w : keeps_custom w (with_cells f w).
Proof. exact id. Qed.

Lemma keeps_custom_watcher f w : keeps_custom w (with_watcher f w).
Proof. exact id. Qed.

Lemma keeps_custom_window f w : keeps_custom w (with_window f w).
Proof. exact id. Qed.

Lemma keeps_custom_callback cb w :
  keeps_custom w (with_effects (λ t, t ++ [ECallback cb]) w).
Proof.
  intros (Ht & Hp & He & Ho & Hr). unfold custom_loop. simpl.
  repeat split; auto. apply Forall_app. auto.
Qed.

Create HintDb custom.
#[local] Hint Resolve keeps_custom_console keeps_custom_cells keeps_custom_watcher
  keeps_custom_window keeps_custom_callback : custom.

Lemma setTimeout_custom t delay :
  task_custom t → frames keeps_custom (setTimeout t delay).
Proof.
  intros Hc w (Ht & Hp & He & Ho & Hr). unfold custom_loop. simpl.
  repeat split; auto. apply Forall_app. auto.
Qed.

Lemma clearTimer_custom o : frames keeps_custom (clearTimer o).
Proof.
  destruct o as [h|]; intros w; [|exact id].
  intros (Ht & Hp & He & Ho & Hr). unfold custom_loop. simpl.
  repeat split; auto.
  apply List.Forall_forall. intros t [Hin _]%List.filter_In.
  by eapply List.Forall_forall in Ht.
Qed.

Lemma await_fetch_custom url k :
  kont_custom k → frames keeps_custom (await_fetch url k).
Proof.
  intros Hc w (Ht & Hp & He & Ho & Hr). unfold custom_loop. simpl.
  repeat split; auto; apply Forall_app; auto.
Qed.

#[local] Hint Resolve setTimeout_custom clearTimer_custom await_fetch_custom : custom.

Ltac custom_leaf :=
  first [ solve [auto with custom] | contradiction | congruence ].

Ltac customs := frame_with keeps_custom_refl keeps_custom_trans custom_leaf.

Lemma call_debounced_custom d :
  task_custom (d_fn d) → frames keeps_custom (call_debounced d).
Proof. intros Hd. unfold call_debounced. customs. Qed.

Lemma getETag_custom fetch url silent : frames keeps_custom (getETag fetch url silent).
Proof. unfold getETag, console_warn. customs. Qed.

#[local] Hint Resolve call_debounced_custom getETag_custom : custom.

Lemma resume_custom fetch k : kont_custom k → frames keeps_custom (resume fetch k).
Proof.
  destruct k as [env|cell env]; cbn [resume kont_custom]; unfold custom; intros Hc;
    unfold versionUpdateHandler, checkError_resume, get_sysVersion, put_sysVersion,
      put_errorCount, console_log, console_warn, emit; customs.
Qed.

Lemma on_navigation_custom env : custom env → frames keeps_custom (on_navigation env).
Proof.
  intros Hc. unfold on_navigation, ignored, call_versionUpdateHandler, console_log. customs.
Qed.

#[local] Hint Resolve on_navigation_custom : custom.

Lemma on_popstate_custom l : popstate_custom l → frames keeps_custom (on_popstate l).
Proof. destruct l as [env]. apply on_navigation_custom. Qed.

Lemma on_error_custom l target : error_custom l → frames keeps_custom (on_error l target).
Proof.
  destruct l as [cell deb env]. intros [Hc Hd].
  unfold on_error, get_errorCount, put_errorCount, console_warn. customs.
Qed.

Lemma call_history_custom f path :
  history_custom f → frames keeps_custom (call_history f path).
Proof.
  induction f as [|original IH env]; cbn [call_history history_custom];
    [intros _; customs|intros [Hc Ho]].
  apply (frames_bind _ keeps_custom_trans); [auto | intros ?; by apply on_navigation_custom].
Qed.

Lemma run_task_custom t : task_custom t → frames keeps_custom (run_task t).
Proof.
  destruct t as [env|cell env|silent]; cbn [run_task task_custom]; [| |contradiction];
    intros Hc; unfold call_versionUpdateHandler, checkError_fn, get_errorCount,
      put_errorCount; customs.
Qed.

Lemma rearm_custom t w : keeps_custom w (rearm t w).
Proof.
  intros (Ht & Hp & He & Ho & Hr). unfold custom_loop, rearm.
  destruct (period t) as [p|]; simpl; repeat split; auto.
  - apply List.Forall_forall. intros u (v & <- & Hin)%List.in_map_iff.
    eapply List.Forall_forall in Ht; [|exact Hin].
    by destruct (Pos.eqb (handle v) (handle t)).
  - apply List.Forall_forall. intros u [Hin _]%List.filter_In.
    by eapply List.Forall_forall in Ht.
Qed.

Lemma fire_custom batch w :
  Forall (λ t, task_custom (task t)) batch → keeps_custom w (fire batch w).
Proof.
  intros Hb. revert w. induction Hb as [|t batch Ht _ IH]; intros w; simpl; [exact id|].
  destruct (reloaded (loop w) || negb (registered (handle t) w)); [apply IH|].
  eapply keeps_custom_trans; [|apply IH].
  eapply keeps_custom_trans; [apply rearm_custom | by apply run_task_custom].
Qed.

Lemma elapse_custom ms w : keeps_custom w (elapse ms w).
Proof.
  revert w. induction ms as [|ms IH]; intros w; simpl; [exact id|].
  eapply keeps_custom_trans; [|apply IH]. unfold tick. intros Hw.
  apply fire_custom.
  - destruct Hw as (Ht & _). simpl.
    apply List.Forall_forall. intros t [Hin _]%List.filter_In.
    by eapply List.Forall_forall in Ht.
  - exact Hw.
Qed.

Lemma dispatch_custom {L} (ok : L → Prop) (call : L → JS unit) ls w :
  (∀ l, ok l → frames keeps_custom (call l)) →
  Forall ok ls → keeps_custom w (dispatch call ls w).
Proof.
  intros Hcall Hls. revert w. induction Hls as [|l ls Hl _ IH]; intros w; simpl; [exact id|].
  eapply keeps_custom_trans; [by apply (Hcall l) | apply IH].
Qed.

(** With callbacks everywhere, no event but setup and teardown can start the
    default flow. *)
Lemma react_custom e w :
  is_lifecycle e = false → custom_window w → keeps_custom w (react e w).
Proof.
  intros He (Hpl & Hel & Hps & Hrs & _).
  destruct e as [options| |path|path|path|target|ms|fid result|accept]; simpl;
    try discriminate.
  - by apply call_history_custom.
  - by apply call_history_custom.
  - eapply keeps_custom_trans; [apply keeps_custom_window|].
    apply (dispatch_custom popstate_custom); [apply on_popstate_custom | exact Hpl].
  - apply (dispatch_custom error_custom); [|exact Hel].
    intros l. apply on_error_custom.
  - apply elapse_custom.
  - unfold take_pending.
    destruct (List.find _ _) as [[i k]|] eqn:Hf; simpl; [|exact id].
    intros Hw. apply resume_custom.
    + destruct Hw as (_ & Hp & _). apply List.find_some in Hf as [Hin _].
      by eapply List.Forall_forall in Hp; [|exact Hin].
    + destruct Hw as (Ht & Hp & He' & Ho & Hr). unfold custom_loop, drop_pending. simpl.
      repeat split; auto.
      apply List.Forall_forall. intros q [Hin _]%List.filter_In.
      by eapply List.Forall_forall in Hp.
  - intros Hw. pose proof Hw as (_ & _ & _ & Ho & _).
    unfold dialog_answered. js_unfold. rewrite Ho. exact Hw.
Qed.

Lemma custom_setup options w :
  onUpdateDetected options ≠ None →
  custom_loop w ∧ custom_window w →
  custom_loop (exec (setupVersionWatcher options) w) ∧
  custom_window (exec (setupVersionWatcher options) w).
Proof.
  intros Hcb [Hl Hw].
  destruct (default true (enabled options)) eqn:Hen.
  - destruct (isInitialized (watcher w)) eqn:Hin.
    + unfold exec. rewrite setupVersionWatcher_again by assumption. simpl.
      by destruct (default false (silent options)).
    + destruct (ignores options (pathname (window w))) eqn:Hig.
      * destruct (setupVersionWatcher_bypassed options w Hig)
          as (_ & _ & _ & _ & Hwi & _ & Hlo & Hef).
        unfold custom_loop, custom_window. rewrite Hwi, Hlo, Hef. auto.
      * destruct (setupVersionWatcher_arms options w Hen Hin Hig)
          as (_ & Hti & Hps & Hrs & Hop & Hor & Hpl & Hel & Hpe & Hef).
        destruct (setupVersionWatcher_keeps options w)
          as (_ & _ & _ & _ & _ & Hod & Hre & _).
        simpl in Hod, Hre.
        destruct Hl as (Ht & Hp & He & Ho & Hr).
        destruct Hw as (Hwp & Hwe & Hwps & Hwrs & Hwop & Hwor).
        assert (Hc : custom (env_of options (origin (window w)))) by exact Hcb.
        assert (Hd1 : history_custom
                  (default (pushState (window w)) (ORIGINAL_PUSH_STATE (window w))))
          by (by destruct (ORIGINAL_PUSH_STATE (window w))).
        assert (Hd2 : history_custom
                  (default (replaceState (window w)) (ORIGINAL_REPLACE_STATE (window w))))
          by (by destruct (ORIGINAL_REPLACE_STATE (window w))).
        unfold custom_loop, custom_window.
        rewrite Hti, Hps, Hrs, Hop, Hor, Hpl, Hel, Hpe, Hef, Hod, Hre. simpl.
        repeat split; auto; try (apply Forall_app; split; auto).
        -- unfold interval_of.
           destruct (0 <? default 0 (checkInterval options))%Z; repeat constructor; auto.
        -- repeat constructor; simpl; auto.
  - unfold exec. rewrite setupVersionWatcher_disabled by assumption. simpl.
    by destruct (default false (silent options)).
Qed.

Lemma custom_destroy w :
  custom_loop w ∧ custom_window w →
  custom_loop (exec destroyVersionWatcher w) ∧
  custom_window (exec destroyVersionWatcher w).
Proof.
  intros [(Ht & Hp & He & Ho & Hr) (Hwp & Hwe & Hwps & Hwrs & Hwop & Hwor)].
  destruct (destroyVersionWatcher_obs w) as (_ & _ & Hwi & _ & Hlo & _ & Hef).
  unfold custom_loop, custom_window. rewrite Hwi, Hlo, Hef. simpl.
  repeat split; auto.
  - destruct (checkTimer (watcher w)) as [h|]; [|exact Ht].
    apply List.Forall_forall. intros u [Hin _]%List.filter_In.
    by eapply List.Forall_forall in Ht.
  - by destruct (ORIGINAL_PUSH_STATE (window w)).
  - by destruct (ORIGINAL_REPLACE_STATE (window w)).
Qed.

Lemma custom_step w e :
  always_custom e →
  custom_loop w ∧ custom_window w →
  custom_loop (step w e) ∧ custom_window (step w e).
Proof.
  intros He Hw. unfold step. destruct (reloaded (loop w)); [exact Hw|].
  destruct (is_lifecycle e) eqn:Hlc.
  - destruct e; try discriminate; simpl.
    + by apply custom_setup.
    + by apply custom_destroy.
  - destruct Hw as [Hl Hw]. split; [by apply (react_custom e w Hlc Hw)|].
    destruct (same_hooks_fields _ _ (react_same_hooks e w Hlc))
      as (Hps & Hrs & Hop & Hor & Hpl & Hel & _).
    unfold custom_window. rewrite Hps, Hrs, Hop, Hor, Hpl, Hel. exact Hw.
Qed.

(** X12. If every setup call passes [onUpdateDetected], the default
    confirmation flow never runs: along any run from a fresh page no dialog
    is scheduled or presented and the page is never reloaded by the watcher;
    every notification is a call of a callback. *)
Theorem custom_callback_replaces_the_default_flow
    (origin path : string) (rich : bool) (answers : list bool) (es : list Event) :
  Forall always_custom es →
  let p := run es (page origin path rich answers) in
  Forall (λ e, is_default_flow e = false) (effects p) ∧
  dialogs p = [] ∧
  Forall (λ e, ∃ cb, e = ECallback cb) (notifications p) ∧
  Forall (λ t, task_custom (task t)) (timers (loop p)) ∧
  reloaded (loop p) = false.
Proof.
  intros Hes p.
  assert (Hp : custom_loop p ∧ custom_window p).
  { unfold p. clear p.
    assert (H0 : custom_loop (page origin path rich answers) ∧
                 custom_window (page origin path rich answers)).
    { unfold custom_loop, custom_window. simpl. repeat split; auto. }
    revert H0. generalize (page origin path rich answers).
    induction Hes as [|e es He _ IH]; intros w Hw; simpl; [exact Hw|].
    by apply IH, custom_step. }
  destruct Hp as [(Ht & _ & He & _ & Hr) _].
  split; [exact He|]. split; [|split; [|auto]].
  - unfold dialogs. induction He as [|e l Hd _ IH]; simpl; [reflexivity|].
    destruct e; simpl in *; try discriminate; exact IH.
  - unfold notifications. induction He as [|e l Hd _ IH]; simpl; [constructor|].
    destruct e; simpl in *; try discriminate; eauto.
Qed.

Lemma custom_callback_witness :
  let options := {| enabled := None; checkInterval := Some 1000%Z; checkPath := None;
                    silent := None; onUpdateDetected := Some (UserCallback 1);
                    ignorePaths := None |} in
  let es := [CallSetup options; FetchSettles 0 (etag "v1"); CallPushState "/a";
             FetchSettles 1 (etag "v2"); Elapse 1000; FetchSettles 2 (etag "v2");
             CallDestroy; CallSetup options; FetchSettles 3 (http_error 500);
             Elapse 600] in
  let p := run es example_page in
  Forall (λ e, is_default_flow e = false) (effects p) ∧
  dialogs p = [] ∧
  Forall (λ e, ∃ cb, e = ECallback cb) (notifications p) ∧
  Forall (λ t, task_custom (task t)) (timers (loop p)) ∧
  reloaded (loop p) = false.
Proof.
  intros options es.
  refine (custom_callback_replaces_the_default_flow "https://app.example" "/" false [] es _).
  repeat constructor; discriminate.
Defined.
